(** * Style rules of eslint-stylistic: a shallow embedding

    The development covers four rules of the repository:
    - [GeneratorStarSpacing]  (generator-star-spacing),
    - [ArrowSpacing]          (arrow-spacing),
    - [NoExtraParens]         (the TypeScript extension of no-extra-parens),
    - [JsxNewline]            (jsx-newline).

    Source text is a [string] whose characters are read as code units in
    the range 0..255; offsets and token ranges are integers ([Z]), as the
    rules subtract them.  A rule that dereferences [null] throws a
    [TypeError]; this is the result [None] of the embedded function. *)

From stdpp Require Import gmap strings list fin_maps pretty.
From Stdlib Require Import ZArith Ascii String Bool Lia.

Local Open Scope string_scope.
Local Open Scope list_scope.
Local Open Scope Z_scope.

(** ** Strings, as the rules use them *)

Module Js.

(** [String.prototype.slice(start, end)]: negative indices count from the
    end, both ends are clamped to the length. *)
Definition slice (s : string) (a b : Z) : string :=
  let len := Z.of_nat (String.length s) in
  let from := if a <? 0 then Z.max (len + a) 0 else Z.min a len in
  let to := if b <? 0 then Z.max (len + b) 0 else Z.min b len in
  substring (Z.to_nat from) (Z.to_nat (to - from)) s.

(** [toUpperCase] on one code unit (only a-z change in the ASCII range). *)
Definition toUpperCase1 (c : ascii) : ascii :=
  let n := nat_of_ascii c in
  if ((97 <=? n) && (n <=? 122))%nat then ascii_of_nat (n - 32) else c.

(** [!!x] for a number that is an integer: only zero is falsy. *)
Definition truthy (x : Z) : bool := negb (x =? 0).

End Js.

(** ** Tokens, the token stream and text edits *)

(** A token of the host's tokenizer.  Tokens are objects: two tokens are the
    same (JavaScript [===]) when they are the same object, which is their
    position in the stream, kept in [tok_id]. *)
Record Token := mkToken {
  tok_id : nat;
  tok_type : string;
  tok_value : string;
  tok_range : Z * Z
}.

Definition tok_start (t : Token) : Z := fst (tok_range t).
Definition tok_end (t : Token) : Z := snd (tok_range t).

(** [a === b] on tokens. *)
Definition same_token (a b : Token) : bool := Nat.eqb (tok_id a) (tok_id b).

(** [a === b] on possibly-null tokens. *)
Definition same_token_opt (a b : option Token) : bool :=
  match a, b with
  | Some x, Some y => same_token x y
  | None, None => true
  | _, _ => false
  end.

Record SourceCode := mkSourceCode {
  text : string;
  tokens : list Token
}.

(** A stream in source order: ids are positions, tokens are non-empty and do
    not overlap. *)
Fixpoint ordered_from (i : nat) (pos : Z) (ts : list Token) : bool :=
  match ts with
  | [] => true
  | t :: ts' =>
      Nat.eqb (tok_id t) i && (pos <=? tok_start t) && (tok_start t <? tok_end t)
      && ordered_from (S i) (tok_end t) ts'
  end.

Definition wf_tokens (sc : SourceCode) : bool := ordered_from 0 0 (tokens sc).

(** Every token carries the text of its range. *)
Definition tokens_match_text (sc : SourceCode) : bool :=
  forallb (fun t => String.eqb (Js.slice (text sc) (tok_start t) (tok_end t)) (tok_value t))
          (tokens sc).

(** Modelled from the spec: the host's token stream queries of section 6
    ([firstToken], [tokenBefore], [tokenAfter], each with an optional
    predicate, absent when out of range); the host engine is not part of
    the repository.  A node or a token is given by its range. *)
Definition getFirstToken (sc : SourceCode) (range : Z * Z) (filter : Token -> bool)
  : option Token :=
  List.find (fun t => (fst range <=? tok_start t) && (tok_end t <=? snd range) && filter t)
            (tokens sc).

Definition getTokenBefore (sc : SourceCode) (range : Z * Z) (filter : Token -> bool)
  : option Token :=
  List.find (fun t => (tok_end t <=? fst range) && filter t) (rev (tokens sc)).

Definition getTokenAfter (sc : SourceCode) (range : Z * Z) (filter : Token -> bool)
  : option Token :=
  List.find (fun t => (snd range <=? tok_start t) && filter t) (tokens sc).

Definition anyToken (_ : Token) : bool := true.

(** A single contiguous replacement, the value a [fix] callback returns. *)
Record TextEdit := mkTextEdit {
  rangeStart : Z;
  rangeEnd : Z;
  replacementText : string
}.

(** The host's [fixer] object. *)
Module fixer.
Definition insertTextAfterRange (range : Z * Z) (txt : string) : TextEdit :=
  mkTextEdit (snd range) (snd range) txt.
Definition insertTextBeforeRange (range : Z * Z) (txt : string) : TextEdit :=
  mkTextEdit (fst range) (fst range) txt.
Definition insertTextAfter (node : Token) (txt : string) : TextEdit :=
  insertTextAfterRange (tok_range node) txt.
Definition insertTextBefore (node : Token) (txt : string) : TextEdit :=
  insertTextBeforeRange (tok_range node) txt.
Definition removeRange (range : Z * Z) : TextEdit :=
  mkTextEdit (fst range) (snd range) "".
Definition replaceTextRange (range : Z * Z) (txt : string) : TextEdit :=
  mkTextEdit (fst range) (snd range) txt.
End fixer.

(** What a rule hands to [context.report]: the location node, the message
    id and the edit its [fix] callback returns. *)
Record Report (N : Type) := mkReport {
  node : N;
  messageId : string;
  fix_edit : TextEdit
}.
Arguments mkReport {N} _ _ _.
Arguments node {N} _.
Arguments messageId {N} _.
Arguments fix_edit {N} _.

(** The location the specification words for a spacing violation: the
    delimiter token when a space must be inserted after the delimiter, the
    other token of the checked pair in every other case.  The rules do not
    use it; it is what their reports are compared with. *)
Definition spec_location (insertAfterDelimiter : bool) (delimiter other : Token) : Token :=
  if insertAfterDelimiter then delimiter else other.

(** The edits of a list of reports. *)
Definition fixes {N : Type} (rs : list (Report N)) : list TextEdit := List.map fix_edit rs.

(** Modelled from the spec: the host's patch engine of sections 1 and 5,
    which applies the edits of one pass in source order and leaves out an
    edit that overlaps the one applied before it (one that starts at or
    before the end of that edit, or whose range is reversed). *)
Fixpoint insertEdit (e : TextEdit) (es : list TextEdit) : list TextEdit :=
  match es with
  | [] => [e]
  | e' :: es' =>
      if (rangeStart e <? rangeStart e')
         || ((rangeStart e =? rangeStart e') && (rangeEnd e <=? rangeEnd e'))
      then e :: es else e' :: insertEdit e es'
  end.

Definition sortEdits (es : list TextEdit) : list TextEdit :=
  fold_right insertEdit [] es.

Fixpoint applySorted (src : string) (lastPos : option Z) (es : list TextEdit) : string :=
  match es with
  | [] => Js.slice src (Z.max 0 (default 0 lastPos)) (Z.of_nat (String.length src))
  | e :: es' =>
      let overlapped :=
        match lastPos with Some p => rangeStart e <=? p | None => false end in
      if overlapped || (rangeEnd e <? rangeStart e) then applySorted src lastPos es'
      else Js.slice src (Z.max 0 (default 0 lastPos)) (Z.max 0 (rangeStart e))
           +:+ replacementText e +:+ applySorted src (Some (rangeEnd e)) es'
  end.

Definition applyFixes (src : string) (es : list TextEdit) : string :=
  applySorted src None (sortEdits es).

(** The width of a gap after the edit [e], which lies inside the gap, is
    applied to it. *)
Definition gapAfterEdit (gap : Z) (e : TextEdit) : Z :=
  gap - (rangeEnd e - rangeStart e) + Z.of_nat (String.length (replacementText e)).

(** ** generator-star-spacing *)

Module GeneratorStarSpacing.

(** The resolved requirement of one bucket: [{ before, after }]. *)
Record SpacingPolicy := mkPolicy {
  before : bool;
  after : bool
}.

(** The shorthand strings of the schema. *)
Inductive Shorthand := SBefore | SAfter | SBoth | SNeither.

(** An option value as the schema admits it: absent, a shorthand string,
    or an object with optional [before]/[after] booleans and optional
    [named]/[anonymous]/[method] overrides. *)
Inductive OptionValue :=
| OUndefined
| OString (s : Shorthand)
| OObject (o_before o_after : option bool) (o_named o_anonymous o_method : OptionValue).

(** [{}] *)
Definition emptyObject : OptionValue := OObject None None OUndefined OUndefined OUndefined.

(** The table [optionDefinitions]. *)
Definition optionDefinitions (s : Shorthand) : SpacingPolicy :=
  match s with
  | SBefore => mkPolicy true false
  | SAfter => mkPolicy false true
  | SBoth => mkPolicy true true
  | SNeither => mkPolicy false false
  end.

(** [Object.assign({}, defaults, option)], read at [before] and [after]
    (the copied bucket keys are never read). *)
Definition assign (defaults : SpacingPolicy) (o_before o_after : option bool) : SpacingPolicy :=
  mkPolicy (default (before defaults) o_before) (default (after defaults) o_after).

Definition optionToDefinition (option : OptionValue) (defaults : SpacingPolicy) : SpacingPolicy :=
  match option with
  | OUndefined => defaults
  | OString s => optionDefinitions s
  | OObject b a _ _ _ => assign defaults b a
  end.

(** Property reads [option.named], [option.anonymous], [option.method];
    on a string they give [undefined]. *)
Definition get_named (option : OptionValue) : OptionValue :=
  match option with OObject _ _ n _ _ => n | _ => OUndefined end.
Definition get_anonymous (option : OptionValue) : OptionValue :=
  match option with OObject _ _ _ a _ => a | _ => OUndefined end.
Definition get_method (option : OptionValue) : OptionValue :=
  match option with OObject _ _ _ _ m => m | _ => OUndefined end.

Record Modes := mkModes {
  named : SpacingPolicy;
  anonymous : SpacingPolicy;
  method : SpacingPolicy
}.

(** The immediately-invoked function that computes [modes]. *)
Definition modesOf (option : OptionValue) : Modes :=
  let defaults := optionToDefinition option (optionDefinitions SBefore) in
  {| named := optionToDefinition (get_named option) defaults;
     anonymous := optionToDefinition (get_anonymous option) defaults;
     method := optionToDefinition (get_method option) defaults |}.

(** [context.options[0] || {}] *)
Definition modes (options0 : OptionValue) : Modes :=
  modesOf (match options0 with OUndefined => emptyObject | o => o end).

Inductive Kind := Named | Anonymous | Method.
Inductive Side := Before | After.

Definition Kind_eqb (a b : Kind) : bool :=
  match a, b with
  | Named, Named | Anonymous, Anonymous | Method, Method => true
  | _, _ => false
  end.

Definition side_name (s : Side) : string :=
  match s with Before => "before" | After => "after" end.

(** [modes[kind][side]] *)
Definition lookup_mode (m : Modes) (kind : Kind) (side : Side) : bool :=
  let p := match kind with Named => named m | Anonymous => anonymous m | Method => method m end in
  match side with Before => before p | After => after p end.

(** Replaces the override of one bucket in an options object. *)
Definition withOverride (kind : Kind) (override : OptionValue) (option : OptionValue)
  : OptionValue :=
  match option with
  | OObject b a n an m =>
      match kind with
      | Named => OObject b a override an m
      | Anonymous => OObject b a n override m
      | Method => OObject b a n an override
      end
  | _ => option
  end.

(** The global default after the top-level [before]/[after] overrides,
    the local [defaults] of the function that computes [modes]. *)
Definition globalDefault (option : OptionValue) : SpacingPolicy :=
  optionToDefinition option (optionDefinitions SBefore).

(** [modes[kind]], read at both sides. *)
Definition policyOf (m : Modes) (kind : Kind) : SpacingPolicy :=
  mkPolicy (lookup_mode m kind Before) (lookup_mode m kind After).

(** The nodes the rule reads. *)
Record ParentNode := mkParent {
  p_type : string;
  p_method : option bool;       (* [None]: the node has no [method] key *)
  p_range : Z * Z
}.

Record FunctionNode := mkFunction {
  fn_type : string;             (* FunctionDeclaration | FunctionExpression *)
  generator : bool;
  fn_id : option string;        (* [node.id]: [null] or the identifier *)
  fn_range : Z * Z;
  parent : ParentNode
}.

Definition isStarToken (token : Token) : bool :=
  String.eqb (tok_value token) "*" && String.eqb (tok_type token) "Punctuator".

Definition getStarToken (sourceCode : SourceCode) (node : FunctionNode) : option Token :=
  getFirstToken sourceCode
    (if match p_method (parent node) with Some m => m | None => false end
        || String.eqb (p_type (parent node)) "MethodDefinition"
     then p_range (parent node) else fn_range node)
    isStarToken.

Definition capitalize (str : string) : string :=
  match str with
  | EmptyString => EmptyString
  | String c rest => String (Js.toUpperCase1 c) rest
  end.

Definition gap (leftToken rightToken : Token) : Z :=
  tok_start rightToken - tok_end leftToken.

Definition checkSpacing (modes : Modes) (kind : Kind) (side : Side)
           (leftToken rightToken : Token) : list (Report Token) :=
  if negb (Bool.eqb (Js.truthy (gap leftToken rightToken)) (lookup_mode modes kind side)) then
    let after := String.eqb (tok_value leftToken) "*" in
    let spaceRequired := lookup_mode modes kind side in
    let node := if after then leftToken else rightToken in
    let messageId :=
      (if spaceRequired then "missing" else "unexpected") +:+ capitalize (side_name side) in
    [ {| node := node;
         messageId := messageId;
         fix_edit := if spaceRequired
                then (if after then fixer.insertTextAfter node " "
                      else fixer.insertTextBefore node " ")
                else fixer.removeRange (tok_end leftToken, tok_start rightToken) |} ]
  else [].

(** The bucket of a generator, as [checkFunction] computes it. *)
Definition kindOf (node : FunctionNode) : Kind :=
  if String.eqb (p_type (parent node)) "MethodDefinition"
     || (String.eqb (p_type (parent node)) "Property"
         && match p_method (parent node) with Some m => m | None => false end)
  then Method
  else if negb (bool_decide (is_Some (fn_id node))) then Anonymous
  else Named.

(** The guard of the before-side check. *)
Definition starIsFirstOfParent (sourceCode : SourceCode) (node : FunctionNode)
           (starToken : Token) : bool :=
  same_token_opt (Some starToken) (getFirstToken sourceCode (p_range (parent node)) anyToken).

(** [checkSpacing] on a token that may be [null]: reading its range throws. *)
Definition checkSpacing' (modes : Modes) (kind : Kind) (side : Side)
           (leftToken rightToken : option Token) : option (list (Report Token)) :=
  l ← leftToken; r ← rightToken; Some (checkSpacing modes kind side l r).

Definition checkFunction (modes : Modes) (sourceCode : SourceCode) (node : FunctionNode)
  : option (list (Report Token)) :=
  if negb (generator node) then Some []
  else
    starToken ← getStarToken sourceCode node;
    let prevToken := getTokenBefore sourceCode (tok_range starToken) anyToken in
    let nextToken := getTokenAfter sourceCode (tok_range starToken) anyToken in
    let kind := kindOf node in
    r1 ← (if negb (Kind_eqb kind Method && starIsFirstOfParent sourceCode node starToken)
          then checkSpacing' modes kind Before prevToken (Some starToken)
          else Some []);
    r2 ← checkSpacing' modes kind After (Some starToken) nextToken;
    Some (r1 ++ r2).

(** *** The two sources of the specification's examples *)

Definition programParent (len : Z) : ParentNode := mkParent "Program" None (0, len).

(** [function* foo() {}] *)
Definition src_star_then_space : SourceCode :=
  {| text := "function* foo() {}";
     tokens := [ mkToken 0 "Keyword" "function" (0, 8);
                 mkToken 1 "Punctuator" "*" (8, 9);
                 mkToken 2 "Identifier" "foo" (10, 13);
                 mkToken 3 "Punctuator" "(" (13, 14);
                 mkToken 4 "Punctuator" ")" (14, 15);
                 mkToken 5 "Punctuator" "{" (16, 17);
                 mkToken 6 "Punctuator" "}" (17, 18) ] |}.

Definition fn_star_then_space : FunctionNode :=
  mkFunction "FunctionDeclaration" true (Some "foo") (0, 18) (programParent 18).

(** [function *foo(){}] *)
Definition src_space_then_star : SourceCode :=
  {| text := "function *foo(){}";
     tokens := [ mkToken 0 "Keyword" "function" (0, 8);
                 mkToken 1 "Punctuator" "*" (9, 10);
                 mkToken 2 "Identifier" "foo" (10, 13);
                 mkToken 3 "Punctuator" "(" (13, 14);
                 mkToken 4 "Punctuator" ")" (14, 15);
                 mkToken 5 "Punctuator" "{" (15, 16);
                 mkToken 6 "Punctuator" "}" (16, 17) ] |}.

Definition fn_space_then_star : FunctionNode :=
  mkFunction "FunctionDeclaration" true (Some "foo") (0, 17) (programParent 17).

(** [class A {*foo(){}}]: the method's function starts at its parameters,
    the star is the first token of the [MethodDefinition]. *)
Definition src_class_method : SourceCode :=
  {| text := "class A {*foo(){}}";
     tokens := [ mkToken 0 "Keyword" "class" (0, 5);
                 mkToken 1 "Identifier" "A" (6, 7);
                 mkToken 2 "Punctuator" "{" (8, 9);
                 mkToken 3 "Punctuator" "*" (9, 10);
                 mkToken 4 "Identifier" "foo" (10, 13);
                 mkToken 5 "Punctuator" "(" (13, 14);
                 mkToken 6 "Punctuator" ")" (14, 15);
                 mkToken 7 "Punctuator" "{" (15, 16);
                 mkToken 8 "Punctuator" "}" (16, 17);
                 mkToken 9 "Punctuator" "}" (17, 18) ] |}.

Definition fn_class_method : FunctionNode :=
  mkFunction "FunctionExpression" true None (13, 17)
             (mkParent "MethodDefinition" None (9, 17)).

(** The message ids and the positions of the location tokens of a list
    of reports. *)
Definition summary (rs : list (Report Token)) : list (string * nat) :=
  List.map (fun r => (messageId r, tok_id (node r))) rs.

(** The keys of [meta.messages]. *)
Definition messages : list string :=
  ["missingBefore"; "missingAfter"; "unexpectedBefore"; "unexpectedAfter"].

(** The guard of the before-side check in [checkFunction]. *)
Definition beforeIsChecked (sourceCode : SourceCode) (node : FunctionNode) (starToken : Token)
  : bool :=
  negb (Kind_eqb (kindOf node) Method && starIsFirstOfParent sourceCode node starToken).

End GeneratorStarSpacing.

(** ** arrow-spacing *)

Module ArrowSpacing.

(** [context.options[0]]: an object with optional booleans. *)
Record RuleOptions := mkOptions {
  o_before : option bool;
  o_after : option bool
}.

Record Rule := mkRule {
  before : bool;
  after : bool
}.

(** [Object.assign({}, context.options[0])] followed by
    [rule.before = rule.before !== false] and the same for [after]. *)
Definition rule (options0 : option RuleOptions) : Rule :=
  let r := default (mkOptions None None) options0 in
  {| before := negb (bool_decide (o_before r = Some false));
     after := negb (bool_decide (o_after r = Some false)) |}.

Record ArrowFunctionExpression := mkArrow {
  range : Z * Z;
  body_range : Z * Z            (* [node.body.range] *)
}.

Record Tokens := mkTokens {
  t_before : Token;
  t_arrow : Token;
  t_after : Token
}.

Record Spaces := mkSpaces {
  c_before : Z;
  c_after : Z
}.

Section Rule.

(** [isArrowToken] of [utils/ast-utils], which finds the delimiter. *)
Variable isArrowToken : Token -> bool.
Variable rule : Rule.
Variable sourceCode : SourceCode.

Definition getTokens (node : ArrowFunctionExpression) : option Tokens :=
  arrow ← getTokenBefore sourceCode (body_range node) isArrowToken;
  before ← getTokenBefore sourceCode (tok_range arrow) anyToken;
  after ← getTokenAfter sourceCode (tok_range arrow) anyToken;
  Some (mkTokens before arrow after).

Definition countSpaces (tokens : Tokens) : Spaces :=
  {| c_before := tok_start (t_arrow tokens) - tok_end (t_before tokens);
     c_after := tok_start (t_after tokens) - tok_end (t_arrow tokens) |}.

(** The two halves of [spaces], in the order the function runs them. *)
Definition spacesBefore (tokens : Tokens) (countSpace : Spaces) : list (Report Token) :=
  if before rule then
    if c_before countSpace =? 0 then
      [ mkReport (t_before tokens) "expectedBefore"
                 (fixer.insertTextBefore (t_arrow tokens) " ") ]
    else []
  else
    if 0 <? c_before countSpace then
      [ mkReport (t_before tokens) "unexpectedBefore"
                 (fixer.removeRange (tok_end (t_before tokens), tok_start (t_arrow tokens))) ]
    else [].

Definition spacesAfter (tokens : Tokens) (countSpace : Spaces) : list (Report Token) :=
  if after rule then
    if c_after countSpace =? 0 then
      [ mkReport (t_after tokens) "expectedAfter"
                 (fixer.insertTextAfter (t_arrow tokens) " ") ]
    else []
  else
    if 0 <? c_after countSpace then
      [ mkReport (t_after tokens) "unexpectedAfter"
                 (fixer.removeRange (tok_end (t_arrow tokens), tok_start (t_after tokens))) ]
    else [].

Definition spaces (node : ArrowFunctionExpression) : option (list (Report Token)) :=
  tokens ← getTokens node;
  let countSpace := countSpaces tokens in
  Some (spacesBefore tokens countSpace ++ spacesAfter tokens countSpace).

End Rule.

(** Modelled from the spec: the delimiter locator of section 4.3 finds the
    arrow by a value+kind predicate; [utils/ast-utils] is not among the
    sources. *)
Definition isArrowToken_std (token : Token) : bool :=
  String.eqb (tok_value token) "=>" && String.eqb (tok_type token) "Punctuator".

(** [var f = (a)=>a;] *)
Definition src_tight_arrow : SourceCode :=
  {| text := "var f = (a)=>a;";
     tokens := [ mkToken 0 "Keyword" "var" (0, 3);
                 mkToken 1 "Identifier" "f" (4, 5);
                 mkToken 2 "Punctuator" "=" (6, 7);
                 mkToken 3 "Punctuator" "(" (8, 9);
                 mkToken 4 "Identifier" "a" (9, 10);
                 mkToken 5 "Punctuator" ")" (10, 11);
                 mkToken 6 "Punctuator" "=>" (11, 13);
                 mkToken 7 "Identifier" "a" (13, 14);
                 mkToken 8 "Punctuator" ";" (14, 15) ] |}.

Definition arrow_tight : ArrowFunctionExpression := mkArrow (8, 14) (13, 14).

(** The keys of [meta.messages]. *)
Definition messages : list string :=
  ["expectedBefore"; "unexpectedBefore"; "expectedAfter"; "unexpectedAfter"].

End ArrowSpacing.

(** ** jsx-newline *)

Module JsxNewline.

(** *** The regular expressions of the rule, on code units 0..255 *)

Definition lf : ascii := ascii_of_nat 10.
Definition cr : ascii := ascii_of_nat 13.

(** [\s]: tab, line feed, vertical tab, form feed, carriage return, space
    and no-break space are the white space code units below 256. *)
Definition isWhiteSpace (c : ascii) : bool :=
  let n := nat_of_ascii c in
  ((9 <=? n) && (n <=? 13) || (n =? 32) || (n =? 160))%nat.

(** [.] matches every code unit but a line terminator. *)
Definition isLineTerminator (c : ascii) : bool :=
  Ascii.eqb c lf || Ascii.eqb c cr.

Fixpoint skipWhiteSpace (s : string) : string :=
  match s with
  | String c s' => if isWhiteSpace c then skipWhiteSpace s' else s
  | EmptyString => s
  end.

(** [/^\s*{\/\*/.test(s)] *)
Definition startsWithBlockComment (s : string) : bool :=
  String.prefix "{/*" (skipWhiteSpace s).

(** [\s*\n] matched at the head of [s]. *)
Fixpoint spaceThenNewline (s : string) : bool :=
  match s with
  | String c s' =>
      if Ascii.eqb c lf then true
      else if isWhiteSpace c then spaceThenNewline s' else false
  | EmptyString => false
  end.

(** [/\n\s*\n/.test(s)] *)
Fixpoint hasBlankLine (s : string) : bool :=
  match s with
  | String c s' => (Ascii.eqb c lf && spaceThenNewline s') || hasBlankLine s'
  | EmptyString => false
  end.

(** [.*pat] matched at the head of [s]. *)
Fixpoint dotStarThen (pat s : string) : bool :=
  String.prefix pat s
  || match s with
     | String c s' => if isLineTerminator c then false else dotStarThen pat s'
     | EmptyString => false
     end.

(** [s.replace(/(\n)(?!.*\1)/g, "\n\n")] *)
Fixpoint doubleLastNewline (s : string) : string :=
  match s with
  | String c s' =>
      if Ascii.eqb c lf && negb (dotStarThen (String lf EmptyString) s')
      then String lf (String lf (doubleLastNewline s'))
      else String c (doubleLastNewline s')
  | EmptyString => EmptyString
  end.

(** [s.replace(/(\n\n)(?!.*\1)/g, "\n")] *)
Fixpoint removeLastNewline (s : string) : string :=
  match s with
  | String c s' =>
      match s' with
      | String c' s'' =>
          if Ascii.eqb c lf && Ascii.eqb c' lf
             && negb (dotStarThen (String lf (String lf EmptyString)) s'')
          then String lf (removeLastNewline s'')
          else String c (removeLastNewline s')
      | EmptyString => s
      end
  | EmptyString => EmptyString
  end.

(** *** Nodes *)

(** A child of a JSX element; [c_nid] is the identity of the object. *)
Record JSXChild := mkChild {
  c_nid : nat;
  c_type : string;
  c_range : Z * Z;
  c_start_line : Z;             (* [loc.start.line] *)
  c_end_line : Z;               (* [loc.end.line] *)
  c_value : string              (* [value] of a Literal or JSXText *)
}.

Record JSXElement := mkElement {
  e_nid : nat;
  children : list JSXChild
}.

Record Configuration := mkConfiguration {
  o_prevent : option bool;
  o_allowMultilines : option bool
}.

Definition isMultilined (node : option JSXChild) : bool :=
  match node with
  | Some n => negb (c_start_line n =? c_end_line n)
  | None => false
  end.

Section Rule.

Variable options0 : option Configuration.   (* [context.options[0]] *)
Variable sourceCode : SourceCode.

Definition getText (range : Z * Z) : string :=
  Js.slice (text sourceCode) (fst range) (snd range).

Definition isBlockCommentInCurlyBraces (element : JSXChild) : bool :=
  let elementRawValue := getText (c_range element) in
  startsWithBlockComment elementRawValue.

Definition isNonBlockComment (element : JSXChild) : bool :=
  negb (isBlockCommentInCurlyBraces element)
  && (String.eqb (c_type element) "JSXElement"
      || String.eqb (c_type element) "JSXExpressionContainer").

(** The callback of [parent.children.forEach]. *)
Definition checkChild (elements : list JSXChild) (index : nat) (element : JSXChild)
  : list (Report JSXChild) :=
  if String.eqb (c_type element) "JSXElement"
     || String.eqb (c_type element) "JSXExpressionContainer"
  then
    let configuration := default (mkConfiguration None None) options0 in
    let prevent := default false (o_prevent configuration) in
    let allowMultilines := default false (o_allowMultilines configuration) in
    match elements !! (index + 1)%nat, elements !! (index + 2)%nat with
    | Some firstAdjacentSibling, Some secondAdjacentSibling =>
        if negb (String.eqb (c_type firstAdjacentSibling) "Literal"
                 || String.eqb (c_type firstAdjacentSibling) "JSXText")
        then []
        else
          let isWithoutNewLine := negb (hasBlankLine (c_value firstAdjacentSibling)) in
          if isBlockCommentInCurlyBraces element then []
          else if allowMultilines
                  && (isMultilined (Some element)
                      || isMultilined
                           (List.find isNonBlockComment (drop (index + 2) elements)))
          then
            if negb isWithoutNewLine then []
            else
              [ mkReport secondAdjacentSibling "allowMultilines"
                  (fixer.replaceTextRange (c_range firstAdjacentSibling)
                     (doubleLastNewline (getText (c_range firstAdjacentSibling)))) ]
          else if Bool.eqb isWithoutNewLine prevent then []
          else
            [ mkReport secondAdjacentSibling
                (if prevent then "prevent" else "require")
                (fixer.replaceTextRange (c_range firstAdjacentSibling)
                   ((if prevent then removeLastNewline else doubleLastNewline)
                      (getText (c_range firstAdjacentSibling)))) ]
    | _, _ => []
    end
  else [].

(** [parent.children.forEach(...)] *)
Definition checkParent (parent : JSXElement) : list (Report JSXChild) :=
  List.concat (imap (checkChild (children parent)) (children parent)).

(** The listener [Program:exit] over the collected parents. *)
Definition programExit (jsxElementParents : list JSXElement) : list (Report JSXChild) :=
  List.concat (List.map checkParent jsxElementParents).

End Rule.

(** [jsxElementParents.add(node.parent)]: a [Set] keeps one entry per
    object, in insertion order. *)
Definition addParent (jsxElementParents : list JSXElement) (parent : JSXElement)
  : list JSXElement :=
  if existsb (fun p => Nat.eqb (e_nid p) (e_nid parent)) jsxElementParents
  then jsxElementParents
  else jsxElementParents ++ [parent].

(** The element [<div><a/>LF<b/></div>], [LF] being one line feed. *)
Definition src_two_children : SourceCode :=
  {| text := "<div><a/>" +:+ String lf "<b/></div>"; tokens := [] |}.

Definition child_a : JSXChild := mkChild 1 "JSXElement" (5, 9) 1 1 "".
Definition child_text : JSXChild := mkChild 2 "JSXText" (9, 10) 1 2 (String lf "").
Definition child_b : JSXChild := mkChild 3 "JSXElement" (10, 14) 2 2 "".
Definition div_two_children : JSXElement := mkElement 0 [child_a; child_text; child_b].

(** The message ids and the identities of the location nodes of a list
    of reports. *)
Definition summary_of_nodes (rs : list (Report JSXChild)) : list (string * nat) :=
  List.map (fun r => (messageId r, c_nid (node r))) rs.

(** The keys of [messages]. *)
Definition messages : list string := ["require"; "prevent"; "allowMultilines"].

(** Strings of white space, strings with a line feed, and strings with two
    line feeds in a row, in which the properties of the three regular
    expressions are stated. *)
Fixpoint allWhiteSpace (s : string) : bool :=
  match s with
  | String c s' => isWhiteSpace c && allWhiteSpace s'
  | EmptyString => true
  end.

Fixpoint hasLineFeed (s : string) : bool :=
  match s with
  | String c s' => Ascii.eqb c lf || hasLineFeed s'
  | EmptyString => false
  end.

Fixpoint hasLineFeedPair (s : string) : bool :=
  match s with
  | String c s' =>
      (Ascii.eqb c lf && match s' with String c' _ => Ascii.eqb c' lf | EmptyString => false end)
      || hasLineFeedPair s'
  | EmptyString => false
  end.

(** [configuration.prevent || false] and [configuration.allowMultilines || false]. *)
Definition preventOf (options0 : option Configuration) : bool :=
  default false (o_prevent (default (mkConfiguration None None) options0)).
Definition allowMultilinesOf (options0 : option Configuration) : bool :=
  default false (o_allowMultilines (default (mkConfiguration None None) options0)).

(** The kinds the callback tests for. *)
Definition isElementKind (e : JSXChild) : bool :=
  String.eqb (c_type e) "JSXElement" || String.eqb (c_type e) "JSXExpressionContainer".
Definition isTextKind (e : JSXChild) : bool :=
  String.eqb (c_type e) "Literal" || String.eqb (c_type e) "JSXText".

(** The condition of the [allowMultilines] branch. *)
Definition multilineApplies (options0 : option Configuration) (sourceCode : SourceCode)
           (elements : list JSXChild) (index : nat) (element : JSXChild) : bool :=
  allowMultilinesOf options0
  && (isMultilined (Some element)
      || isMultilined (List.find (isNonBlockComment sourceCode) (drop (index + 2) elements))).

(** [<a/>] spread over two lines, before the same text and [<b/>]. *)
Definition child_multiline : JSXChild := mkChild 1 "JSXElement" (5, 9) 1 2 "".
Definition options_allowMultilines : option Configuration :=
  Some (mkConfiguration (Some true) (Some true)).

End JsxNewline.

(** ** no-extra-parens (TypeScript extension of the host's base rule) *)

Module NoExtraParens.

(** *** Objects and the store

    The overrides build copies of AST nodes with the object spread; to
    tell a copy from the node it was made from, nodes live in a store and
    are named by their address. *)

Definition loc := positive.

#[warnings="-register-all"]
Inductive value :=
| VUndefined
| VNull
| VBool (b : bool)
| VNum (n : Z)
| VStr (s : string)
| VRef (l : loc)                (* an object *)
| VArr (vs : list value).       (* the elements of an array *)

Record state := mkState {
  heap : gmap loc (gmap string value);
  calls : list (string * value)   (* the base rule's callbacks invoked so far *)
}.

(** A computation reads and extends the store, records the calls of the
    base rule, and may throw. *)
Definition M (A : Type) : Type := state -> option (A * state).

Definition ret {A} (a : A) : M A := fun st => Some (a, st).
Definition bind {A B} (m : M A) (f : A -> M B) : M B :=
  fun st => match m st with Some (a, st') => f a st' | None => None end.
Definition throw {A} : M A := fun _ => None.

Declare Scope js_scope.
Delimit Scope js_scope with js.
Notation "'let*' x ':=' m 'in' k" := (bind m (fun x => k))
  (at level 100, x name, m at next level, right associativity) : js_scope.
Notation "m1 ';;;' m2" := (bind m1 (fun _ => m2))
  (at level 100, right associativity) : js_scope.
Local Open Scope js_scope.

Definition getHeap : M (gmap loc (gmap string value)) := fun st => Some (heap st, st).

(** [ToBoolean] *)
Definition truthy (v : value) : bool :=
  match v with
  | VUndefined | VNull => false
  | VBool b => b
  | VNum n => negb (n =? 0)
  | VStr s => negb (String.eqb s "")
  | VRef _ | VArr _ => true
  end.

(** The own enumerable properties the spread [{...v}] copies. *)
Definition ownProps (h : gmap loc (gmap string value)) (v : value) : gmap string value :=
  match v with
  | VRef l => default ∅ (h !! l)
  | VArr vs => list_to_map (imap (fun i x => (pretty i, x)) vs)
  | VStr s =>
      list_to_map (imap (fun i c => (pretty i, VStr (String c EmptyString)))
                        (list_ascii_of_string s))
  | _ => ∅
  end.

(** [v.key]; reading a property of [null] or [undefined] throws. *)
Definition getProp (v : value) (key : string) : M value :=
  fun st =>
    match v with
    | VUndefined | VNull => None
    | VRef l =>
        Some (match heap st !! l with
              | Some o => default VUndefined (o !! key)
              | None => VUndefined
              end, st)
    | VArr vs =>
        Some (if String.eqb key "length" then VNum (Z.of_nat (List.length vs)) else VUndefined, st)
    | VStr s =>
        Some (if String.eqb key "length" then VNum (Z.of_nat (String.length s))
              else VUndefined, st)
    | _ => Some (VUndefined, st)
    end.

(** [v[i]] *)
Definition getIndex (v : value) (i : nat) : M value :=
  match v with
  | VArr vs => ret (default VUndefined (vs !! i))
  | VStr s =>
      ret (match String.get i s with Some c => VStr (String c EmptyString) | None => VUndefined end)
  | _ => getProp v (pretty i)
  end.

(** [v?.key] *)
Definition getPropOpt (v : value) (key : string) : M value :=
  match v with
  | VUndefined | VNull => ret VUndefined
  | _ => getProp v key
  end.

(** A new object with the given properties. *)
Definition alloc (o : gmap string value) : M value :=
  fun st =>
    let l := fresh (dom (heap st)) in
    Some (VRef l, mkState (<[l := o]> (heap st)) (calls st)).

(** Defines a property of an object under construction. *)
Definition setProp (target : value) (key : string) (v : value) : M unit :=
  fun st =>
    match target with
    | VRef l => Some (tt, mkState (alter (fun o => <[key := v]> o) l (heap st)) (calls st))
    | _ => None
    end.

Fixpoint defineFields (target : value) (fields : list (string * M value)) : M unit :=
  match fields with
  | [] => ret tt
  | (key, m) :: fields' =>
      let* v := m in setProp target key v ;;; defineFields target fields'
  end.

(** The object literal [{ ...spread, key1: e1, ..., keyn: en }]: a new
    object receives the properties of [spread], then each initializer is
    evaluated and defined in turn. *)
Definition objectLiteral (spread : value) (fields : list (string * M value)) : M value :=
  let* h := getHeap in
  let* o := alloc (ownProps h spread) in
  defineFields o fields ;;; ret o.

(** [[node.range[0], node.range[1]]], which the token queries read. *)
Definition rangeOf (node : value) : M (Z * Z) :=
  let* r := getProp node "range" in
  match r with
  | VArr [VNum a; VNum b] => ret (a, b)
  | _ => throw
  end.

Definition isString (v : value) (s : string) : bool :=
  match v with VStr s' => String.eqb s' s | _ => false end.

Definition SequenceExpression : value := VStr "SequenceExpression".
Definition ForOfStatement : value := VStr "ForOfStatement".

(** The functions a listener key can be bound to. *)
Inductive handler :=
| Base (key : string)           (* the base rule's own callback [rules[key]] *)
| H_ArrowFunctionExpression
| H_AwaitExpression
| H_binaryExp
| H_callExp
| H_ClassDeclaration
| H_ClassExpression
| H_ConditionalExpression
| H_ForStatement
| H_ForStatementInitExit
| H_MemberExpression
| H_SpreadElement
| H_SwitchCase
| H_ThrowStatement
| H_unaryUpdateExpression
| H_YieldExpression
| H_ForInStatement
| H_ForOfStatement
| H_ForInOrOfStatement.

Section Rule.

(** The keys of [rules = baseRule.create(context)]. *)
Variable rules : gset string.
Variable sourceCode : SourceCode.
(** [isTypeAssertion] and [isOpeningParenToken] of
    [@typescript-eslint/utils/ast-utils]. *)
Variable isTypeAssertion : gmap loc (gmap string value) -> value -> bool.
Variable isOpeningParenToken : Token -> bool.

Definition hasRule (key : string) : bool := bool_decide (key ∈ rules).

(** [rules[key](arg)]; calling a missing callback throws. *)
Definition callRule (key : string) (arg : value) : M unit :=
  fun st =>
    if hasRule key then Some (tt, mkState (heap st) (calls st ++ [(key, arg)]))
    else None.

Definition isTA (v : value) : M bool :=
  let* h := getHeap in ret (isTypeAssertion h v).

(** [{ ...child, type: AST_NODE_TYPES.SequenceExpression }] *)
Definition asSequence (child : value) : M value :=
  objectLiteral child [("type", ret SequenceExpression)].

(** [{ ...node, key: { ...node.key, type: SequenceExpression } }] *)
Definition withSequenceAt (node : value) (key : string) : M value :=
  objectLiteral node [(key, let* child := getProp node key in asSequence child)].

Definition binaryExp (node : value) : M unit :=
  let* left := getProp node "left" in
  let* isLeftTypeAssertion := isTA left in
  let* right := getProp node "right" in
  let* isRightTypeAssertion := isTA right in
  if isLeftTypeAssertion && isRightTypeAssertion then ret tt
  else if isLeftTypeAssertion then
    let* arg := withSequenceAt node "left" in callRule "BinaryExpression" arg
  else if isRightTypeAssertion then
    let* arg := withSequenceAt node "right" in callRule "BinaryExpression" arg
  else callRule "BinaryExpression" node.

(** The test [getTokenAfter(callee, isOpeningParenToken) !==
    getTokenBefore(arguments[0], isOpeningParenToken)]. *)
Definition parenTokensDiffer (callee firstArgument : value) : M bool :=
  let* calleeRange := rangeOf callee in
  let* argumentRange := rangeOf firstArgument in
  ret (negb (same_token_opt
               (getTokenAfter sourceCode calleeRange isOpeningParenToken)
               (getTokenBefore sourceCode argumentRange isOpeningParenToken))).

Definition callExp (node : value) : M unit :=
  let* callee := getProp node "callee" in
  let* isCalleeTypeAssertion := isTA callee in
  if isCalleeTypeAssertion then
    let* arg := withSequenceAt node "callee" in callRule "CallExpression" arg
  else
    let* arguments := getProp node "arguments" in
    let* len := getProp arguments "length" in
    let* typeArgumentParens :=
      match len with
      | VNum 1 =>
          let* argument0 := getIndex arguments 0 in
          parenTokensDiffer callee argument0
      | _ => ret false
      end in
    if typeArgumentParens then
      let* arg :=
        objectLiteral node
          [("arguments",
            let* argument0 := getIndex arguments 0 in
            let* stand_in := asSequence argument0 in
            ret (VArr [stand_in]))] in
      callRule "CallExpression" arg
    else callRule "CallExpression" node.

Definition unaryUpdateExpression (node : value) : M unit :=
  let* argument := getProp node "argument" in
  let* ta := isTA argument in
  if ta then
    let* arg := withSequenceAt node "argument" in callRule "UnaryExpression" arg
  else callRule "UnaryExpression" node.

(** The overrides written as methods of the [overrides] object. *)

Definition ArrowFunctionExpression (node : value) : M unit :=
  let* body := getProp node "body" in
  let* ta := isTA body in
  if negb ta then callRule "ArrowFunctionExpression" node else ret tt.

Definition AwaitExpression (node : value) : M unit :=
  let* argument := getProp node "argument" in
  let* ta := isTA argument in
  if ta then
    let* arg := withSequenceAt node "argument" in callRule "AwaitExpression" arg
  else callRule "AwaitExpression" node.

(** [ClassDeclaration] and [ClassExpression], which differ in the callback. *)
Definition classOverride (key : string) (node : value) : M unit :=
  let* superClass := getProp node "superClass" in
  let* type := getPropOpt superClass "type" in
  if isString type "TSAsExpression" then
    let* arg := withSequenceAt node "superClass" in callRule key arg
  else callRule key node.

Definition ConditionalExpression (node : value) : M unit :=
  let* test := getProp node "test" in
  let* isTest := isTA test in
  if isTest then
    let* arg := withSequenceAt node "test" in callRule "ConditionalExpression" arg
  else
    let* consequent := getProp node "consequent" in
    let* isConsequent := isTA consequent in
    if isConsequent then
      let* arg := withSequenceAt node "consequent" in callRule "ConditionalExpression" arg
    else
      let* alternate := getProp node "alternate" in
      let* isAlternate := isTA alternate in
      if isAlternate then
        let* arg := withSequenceAt node "alternate" in callRule "ConditionalExpression" arg
      else callRule "ConditionalExpression" node.

(** [node.key && isTypeAssertion(node.key)] *)
Definition presentTypeAssertion (node : value) (key : string) : M bool :=
  let* child := getProp node key in
  if truthy child then isTA child else ret false.

(** [{ ...node, key: null }] *)
Definition withNullAt (node : value) (key : string) : M value :=
  objectLiteral node [(key, ret VNull)].

Definition ForStatement (node : value) : M unit :=
  let* isInit := presentTypeAssertion node "init" in
  if isInit then
    let* arg := withNullAt node "init" in callRule "ForStatement" arg
  else
    let* isTest := presentTypeAssertion node "test" in
    if isTest then
      let* arg := withNullAt node "test" in callRule "ForStatement" arg
    else
      let* isUpdate := presentTypeAssertion node "update" in
      if isUpdate then
        let* arg := withNullAt node "update" in callRule "ForStatement" arg
      else callRule "ForStatement" node.

Definition ForStatementInitExit (node : value) : M unit :=
  let* ta := isTA node in
  if negb ta then callRule "ForStatement > *.init:exit" node else ret tt.

Definition MemberExpression (node : value) : M unit :=
  let* object := getProp node "object" in
  let* ta := isTA object in
  if ta then
    let* arg := withSequenceAt node "object" in callRule "MemberExpression" arg
  else callRule "MemberExpression" node.

Definition SpreadElement (node : value) : M unit :=
  let* argument := getProp node "argument" in
  let* ta := isTA argument in
  if negb ta then callRule "SpreadElement" node else ret tt.

(** [SwitchCase], [ThrowStatement] and [YieldExpression]:
    [if (node.key && !isTypeAssertion(node.key)) return rules[name](node)]. *)
Definition unlessTypeAssertion (name key : string) (node : value) : M unit :=
  let* child := getProp node key in
  if truthy child then
    let* ta := isTA child in
    if negb ta then callRule name node else ret tt
  else ret tt.

(** [{ ...node, type: ForOfStatement, right: { ...node.right, type: SequenceExpression } }] *)
Definition asForOfWithSequenceRight (node : value) : M value :=
  objectLiteral node
    [("type", ret ForOfStatement);
     ("right", let* right := getProp node "right" in asSequence right)].

(** The overrides installed when the base rule has both per-kind callbacks. *)
Definition ForInStatement (node : value) : M unit :=
  let* right := getProp node "right" in
  let* ta := isTA right in
  if ta then ret tt else callRule "ForInStatement" node.

Definition ForOfStatementOverride (node : value) : M unit :=
  let* right := getProp node "right" in
  let* ta := isTA right in
  if ta then
    let* arg := asForOfWithSequenceRight node in callRule "ForOfStatement" arg
  else callRule "ForOfStatement" node.

(** The override installed otherwise, under the combined selector. *)
Definition ForInOrOfStatement (node : value) : M unit :=
  let* right := getProp node "right" in
  let* ta := isTA right in
  if ta then
    let* arg := asForOfWithSequenceRight node in
    callRule "ForInStatement, ForOfStatement" arg
  else callRule "ForInStatement, ForOfStatement" node.

Definition runHandler (h : handler) (node : value) : M unit :=
  match h with
  | Base key => callRule key node
  | H_ArrowFunctionExpression => ArrowFunctionExpression node
  | H_AwaitExpression => AwaitExpression node
  | H_binaryExp => binaryExp node
  | H_callExp => callExp node
  | H_ClassDeclaration => classOverride "ClassDeclaration" node
  | H_ClassExpression => classOverride "ClassExpression" node
  | H_ConditionalExpression => ConditionalExpression node
  | H_ForStatement => ForStatement node
  | H_ForStatementInitExit => ForStatementInitExit node
  | H_MemberExpression => MemberExpression node
  | H_SpreadElement => SpreadElement node
  | H_SwitchCase => unlessTypeAssertion "SwitchCase" "test" node
  | H_ThrowStatement => unlessTypeAssertion "ThrowStatement" "argument" node
  | H_unaryUpdateExpression => unaryUpdateExpression node
  | H_YieldExpression => unlessTypeAssertion "YieldExpression" "argument" node
  | H_ForInStatement => ForInStatement node
  | H_ForOfStatement => ForOfStatementOverride node
  | H_ForInOrOfStatement => ForInOrOfStatement node
  end.

(** The object [overrides], with the keys that depend on the host. *)
Definition overrides : gmap string handler :=
  let fixed : gmap string handler :=
    list_to_map
      [ ("ArrowFunctionExpression", H_ArrowFunctionExpression);
        ("AwaitExpression", H_AwaitExpression);
        ("BinaryExpression", H_binaryExp);
        ("CallExpression", H_callExp);
        ("ClassDeclaration", H_ClassDeclaration);
        ("ClassExpression", H_ClassExpression);
        ("ConditionalExpression", H_ConditionalExpression);
        ("ForStatement", H_ForStatement);
        ("ForStatement > *.init:exit", H_ForStatementInitExit);
        ("LogicalExpression", H_binaryExp);
        ("MemberExpression", H_MemberExpression);
        ("NewExpression", H_callExp);
        ("SpreadElement", H_SpreadElement);
        ("SwitchCase", H_SwitchCase);
        ("ThrowStatement", H_ThrowStatement);
        ("UnaryExpression", H_unaryUpdateExpression);
        ("UpdateExpression", H_unaryUpdateExpression);
        ("YieldExpression", H_YieldExpression) ] in
  if hasRule "ForInStatement" && hasRule "ForOfStatement" then
    <["ForOfStatement" := H_ForOfStatement]> (<["ForInStatement" := H_ForInStatement]> fixed)
  else
    <["ForInStatement, ForOfStatement" := H_ForInOrOfStatement]> fixed.

(** [Object.assign({}, rules, overrides)], the listener [create] returns. *)
Definition create : gmap string handler :=
  overrides ∪ map_imap (fun key _ => Some (Base key)) (gset_to_gmap tt rules).

(** The host visits [node] under the selector [key]. *)
Definition visit (key : string) (node : value) : M unit :=
  match create !! key with
  | Some h => runHandler h node
  | None => ret tt
  end.

End Rule.

(** The predicate of [@typescript-eslint/utils]: a node of kind
    [TSAsExpression] or [TSTypeAssertion]. *)
Definition isTypeAssertion_std (h : gmap loc (gmap string value)) (v : value) : bool :=
  match v with
  | VRef l =>
      match h !! l with
      | Some o =>
          match o !! "type" with
          | Some (VStr t) => String.eqb t "TSAsExpression" || String.eqb t "TSTypeAssertion"
          | _ => false
          end
      | None => false
      end
  | _ => false
  end.

Definition isOpeningParenToken_std (token : Token) : bool :=
  String.eqb (tok_value token) "(" && String.eqb (tok_type token) "Punctuator".

Definition initial (h : gmap loc (gmap string value)) : state := mkState h [].

(** *** What the base rule is handed, in terms of the store *)

(** Every object of [st] is in [st'] as it was: the computation from [st]
    to [st'] wrote to no node of the AST. *)
Definition untouched (st st' : state) : Prop :=
  forall l o, heap st !! l = Some o -> heap st' !! l = Some o.

(** From [st] to [st'] exactly one object, [copy], was added, with the
    properties [props]. *)
Definition addsCopy (st st' : state) (copy : loc) (props : gmap string value) : Prop :=
  heap st !! copy = None /\ heap st' = <[copy := props]> (heap st).

(** From [st] to [st'] exactly two objects were added: [stand_in], which
    has the properties of the object at [child] but for its [type], now
    [SequenceExpression]; and [copy], with the properties [props stand_in]. *)
Definition addsCopyWithStandIn (st st' : state) (child : loc) (copy : loc)
           (props : loc -> gmap string value) : Prop :=
  exists childobj stand_in,
    heap st !! child = Some childobj
    /\ heap st !! copy = None /\ heap st !! stand_in = None /\ copy <> stand_in
    /\ heap st' = <[copy := props stand_in]>
                    (<[stand_in := <["type" := SequenceExpression]> childobj]> (heap st)).

(** The base rule's callback [key] was invoked once more, on [arg]. *)
Definition invoked (st st' : state) (key : string) (arg : value) : Prop :=
  calls st' = calls st ++ [(key, arg)].

(** [node.key && isTypeAssertion(node.key)], the guard of [ForStatement],
    for a node with the properties [o]. *)
Definition isTypeAssertionClause (isT : gmap loc (gmap string value) -> value -> bool)
           (h : gmap loc (gmap string value)) (o : gmap string value) (key : string) : bool :=
  truthy (default VUndefined (o !! key)) && isT h (default VUndefined (o !! key)).

(** The combined selector of the older base rule. *)
Definition combined : string := "ForInStatement, ForOfStatement".

(** *** Example programs *)

(** The callbacks of a base rule with per-kind loop callbacks, and of an
    older one with the combined selector. *)
Definition rules_per_kind : gset string :=
  list_to_set
    [ "ArrowFunctionExpression"; "AwaitExpression"; "BinaryExpression"; "CallExpression";
      "ClassDeclaration"; "ClassExpression"; "ConditionalExpression"; "ForStatement";
      "ForStatement > *.init:exit"; "ForInStatement"; "ForOfStatement"; "MemberExpression";
      "SpreadElement"; "SwitchCase"; "ThrowStatement"; "UnaryExpression"; "YieldExpression" ].

Definition rules_combined : gset string :=
  list_to_set
    [ "ArrowFunctionExpression"; "AwaitExpression"; "BinaryExpression"; "CallExpression";
      "ClassDeclaration"; "ClassExpression"; "ConditionalExpression"; "ForStatement";
      "ForStatement > *.init:exit"; "ForInStatement, ForOfStatement"; "MemberExpression";
      "SpreadElement"; "SwitchCase"; "ThrowStatement"; "UnaryExpression"; "YieldExpression" ].

Definition range (a b : Z) : value := VArr [VNum a; VNum b].

(** [(x as T) + y] *)
Definition binary_node : gmap string value :=
  list_to_map [ ("type", VStr "BinaryExpression"); ("operator", VStr "+");
                ("left", VRef 2%positive); ("right", VRef 3%positive); ("range", range 0 14) ].
Definition as_node : gmap string value :=
  list_to_map [ ("type", VStr "TSAsExpression"); ("range", range 1 7) ].
Definition y_node : gmap string value :=
  list_to_map [ ("type", VStr "Identifier"); ("name", VStr "y"); ("range", range 11 12) ].
Definition heap_binary : gmap loc (gmap string value) :=
  list_to_map [ (1%positive, binary_node); (2%positive, as_node); (3%positive, y_node) ].

(** [f<()=>T>(x)]: an opening parenthesis in the type arguments. *)
Definition src_call : SourceCode :=
  {| text := "f<()=>T>(x)";
     tokens := [ mkToken 0 "Identifier" "f" (0, 1);
                 mkToken 1 "Punctuator" "<" (1, 2);
                 mkToken 2 "Punctuator" "(" (2, 3);
                 mkToken 3 "Punctuator" ")" (3, 4);
                 mkToken 4 "Punctuator" "=>" (4, 6);
                 mkToken 5 "Identifier" "T" (6, 7);
                 mkToken 6 "Punctuator" ">" (7, 8);
                 mkToken 7 "Punctuator" "(" (8, 9);
                 mkToken 8 "Identifier" "x" (9, 10);
                 mkToken 9 "Punctuator" ")" (10, 11) ] |}.
Definition call_node : gmap string value :=
  list_to_map [ ("type", VStr "CallExpression"); ("callee", VRef 2%positive);
                ("arguments", VArr [VRef 3%positive]); ("range", range 0 11) ].
Definition f_node : gmap string value :=
  list_to_map [ ("type", VStr "Identifier"); ("name", VStr "f"); ("range", range 0 1) ].
Definition x_node : gmap string value :=
  list_to_map [ ("type", VStr "Identifier"); ("name", VStr "x"); ("range", range 9 10) ].
Definition heap_call : gmap loc (gmap string value) :=
  list_to_map [ (1%positive, call_node); (2%positive, f_node); (3%positive, x_node) ].

(** [for ((a as T); (b as T); c) {}]: two clauses are type assertions. *)
Definition for_node : gmap string value :=
  list_to_map [ ("type", VStr "ForStatement"); ("init", VRef 2%positive); ("test", VRef 3%positive);
                ("update", VRef 4%positive); ("body", VRef 5%positive) ].
Definition heap_for : gmap loc (gmap string value) :=
  list_to_map [ (1%positive, for_node); (2%positive, as_node); (3%positive, as_node);
                (4%positive, y_node);
                (5%positive, list_to_map [("type", VStr "BlockStatement")]) ].

(** [for (; (b as T); ) {}]: the test alone is a type assertion. *)
Definition for_test_node : gmap string value :=
  list_to_map [ ("type", VStr "ForStatement"); ("init", VNull); ("test", VRef 2%positive);
                ("update", VNull); ("body", VRef 3%positive) ].
Definition heap_for_test : gmap loc (gmap string value) :=
  list_to_map [ (1%positive, for_test_node); (2%positive, as_node);
                (3%positive, list_to_map [("type", VStr "BlockStatement")]) ].

(** The loop overrides read no token. *)
Definition no_tokens : SourceCode := mkSourceCode "" [].

(** [for (k in (o as T)) {}] *)
Definition for_in_node : gmap string value :=
  list_to_map [ ("type", VStr "ForInStatement"); ("left", VRef 3%positive); ("right", VRef 2%positive);
                ("body", VRef 4%positive) ].
Definition heap_for_in : gmap loc (gmap string value) :=
  list_to_map [ (1%positive, for_in_node); (2%positive, as_node); (3%positive, y_node);
                (4%positive, list_to_map [("type", VStr "BlockStatement")]) ].

(** [f((x))]: no type arguments, the sole argument in parentheses of its own. *)
Definition src_call_parens : SourceCode :=
  {| text := "f((x))";
     tokens := [ mkToken 0 "Identifier" "f" (0, 1);
                 mkToken 1 "Punctuator" "(" (1, 2);
                 mkToken 2 "Punctuator" "(" (2, 3);
                 mkToken 3 "Identifier" "x" (3, 4);
                 mkToken 4 "Punctuator" ")" (4, 5);
                 mkToken 5 "Punctuator" ")" (5, 6) ] |}.
Definition call_parens_node : gmap string value :=
  list_to_map [ ("type", VStr "CallExpression"); ("callee", VRef 2%positive);
                ("arguments", VArr [VRef 3%positive]); ("range", range 0 6) ].
Definition x_parens_node : gmap string value :=
  list_to_map [ ("type", VStr "Identifier"); ("name", VStr "x"); ("range", range 3 4) ].
Definition heap_call_parens : gmap loc (gmap string value) :=
  list_to_map [ (1%positive, call_parens_node); (2%positive, f_node);
                (3%positive, x_parens_node) ].

(** *** The wording of the specification for calls *)

(** The source range of the type arguments of a call, when it has any
    (the property [typeArguments], [typeParameters] in older trees). *)
Definition typeArgumentsRange (h : gmap loc (gmap string value)) (o : gmap string value)
  : option (Z * Z) :=
  let rangeAt (v : option value) :=
    match v with
    | Some (VRef l) =>
        match h !! l with
        | Some typeArguments =>
            match typeArguments !! "range" with
            | Some (VArr [VNum a; VNum b]) => Some (a, b)
            | _ => None
            end
        | None => None
        end
    | _ => None
    end in
  match rangeAt (o !! "typeArguments") with
  | Some r => Some r
  | None => rangeAt (o !! "typeParameters")
  end.

(** "Explicit type-argument parentheses intervene" between the callee and
    the argument list: an opening parenthesis lies within the type
    arguments of the call. *)
Definition typeArgumentParensIntervene (sourceCode : SourceCode)
           (isOpeningParenToken : Token -> bool)
           (h : gmap loc (gmap string value)) (o : gmap string value) : bool :=
  match typeArgumentsRange h o with
  | Some (first, last) =>
      existsb (fun t => isOpeningParenToken t
                        && (first <=? tok_start t) && (tok_end t <=? last))
              (tokens sourceCode)
  | None => false
  end.

(** *** Shapes of computations and of handlers *)

(** The callback of the base rule a handler forwards to. *)
Definition delegateKey (h : handler) : string :=
  match h with
  | Base key => key
  | H_ArrowFunctionExpression => "ArrowFunctionExpression"
  | H_AwaitExpression => "AwaitExpression"
  | H_binaryExp => "BinaryExpression"
  | H_callExp => "CallExpression"
  | H_ClassDeclaration => "ClassDeclaration"
  | H_ClassExpression => "ClassExpression"
  | H_ConditionalExpression => "ConditionalExpression"
  | H_ForStatement => "ForStatement"
  | H_ForStatementInitExit => "ForStatement > *.init:exit"
  | H_MemberExpression => "MemberExpression"
  | H_SpreadElement => "SpreadElement"
  | H_SwitchCase => "SwitchCase"
  | H_ThrowStatement => "ThrowStatement"
  | H_unaryUpdateExpression => "UnaryExpression"
  | H_YieldExpression => "YieldExpression"
  | H_ForInStatement => "ForInStatement"
  | H_ForOfStatement => "ForOfStatement"
  | H_ForInOrOfStatement => combined
  end.

(** A computation that only adds objects to the store and records no call. *)
Definition safe {A} (m : M A) : Prop :=
  forall st a st', m st = Some (a, st') -> heap st ⊆ heap st' /\ calls st' = calls st.

Definition safeFields (fields : list (string * M value)) : Prop :=
  Forall (fun f => safe (snd f)) fields.

(** A handler that only adds objects and invokes at most the callback
    [key], once, which the host then has. *)
Definition delegating (rules : gset string) (key : string) (m : M unit) : Prop :=
  forall st u st',
    m st = Some (u, st') ->
    heap st ⊆ heap st'
    /\ (calls st' = calls st
        \/ exists arg, calls st' = calls st ++ [(key, arg)] /\ hasRule rules key = true).

(** A computation that does not throw. *)
Definition runs {A} (m : M A) : Prop := forall st, exists a st', m st = Some (a, st').

Definition runFields (fields : list (string * M value)) : Prop :=
  Forall (fun f => runs (snd f)) fields.

(** The state after the callback [key] was handed the node [n] itself. *)
Definition forwarded (st : state) (key : string) (n : loc) : state :=
  mkState (heap st) (calls st ++ [(key, VRef n)]).

(** [handler] hands the callback [ruleKey] a copy of the node [n] whose
    [key] is a stand-in for the object at [c]. *)
Definition handsStandIn (handler : value -> M unit) (ruleKey key : string)
           (st : state) (n c : loc) : Prop :=
  exists nodeobj copy st',
    heap st !! n = Some nodeobj
    /\ handler (VRef n) st = Some (tt, st')
    /\ invoked st st' ruleKey (VRef copy)
    /\ addsCopyWithStandIn st st' c copy (fun stand_in => <[key := VRef stand_in]> nodeobj)
    /\ untouched st st'.

(** [handler] hands the callback [ruleKey] a copy of the node [n] whose
    [key] is [null]. *)
Definition handsWithout (handler : value -> M unit) (ruleKey key : string)
           (st : state) (n : loc) : Prop :=
  exists nodeobj copy st',
    heap st !! n = Some nodeobj
    /\ handler (VRef n) st = Some (tt, st')
    /\ invoked st st' ruleKey (VRef copy)
    /\ addsCopy st st' copy (<[key := VNull]> nodeobj)
    /\ untouched st st'.

(** *** More example programs *)

(** [(x as T).y] *)
Definition member_node : gmap string value :=
  list_to_map [ ("type", VStr "MemberExpression"); ("object", VRef 2%positive);
                ("property", VRef 3%positive) ].
Definition heap_member : gmap loc (gmap string value) :=
  list_to_map [ (1%positive, member_node); (2%positive, as_node); (3%positive, y_node) ].

(** [y ? (x as T) : y] *)
Definition conditional_node : gmap string value :=
  list_to_map [ ("type", VStr "ConditionalExpression"); ("test", VRef 3%positive);
                ("consequent", VRef 2%positive); ("alternate", VRef 3%positive) ].
Definition heap_conditional : gmap loc (gmap string value) :=
  list_to_map [ (1%positive, conditional_node); (2%positive, as_node); (3%positive, y_node) ].

(** [class A extends (<T>y) {}]: the super class is an angle-bracket assertion. *)
Definition angle_node : gmap string value :=
  list_to_map [ ("type", VStr "TSTypeAssertion") ].
Definition class_node : gmap string value :=
  list_to_map [ ("type", VStr "ClassDeclaration"); ("superClass", VRef 2%positive) ].
Definition heap_class : gmap loc (gmap string value) :=
  list_to_map [ (1%positive, class_node); (2%positive, angle_node) ].

(** [f()] *)
Definition call0_node : gmap string value :=
  list_to_map [ ("type", VStr "CallExpression"); ("callee", VRef 2%positive);
                ("arguments", VArr []) ].
Definition heap_call0 : gmap loc (gmap string value) :=
  list_to_map [ (1%positive, call0_node); (2%positive, f_node) ].

(** [default:], a switch case without test. *)
Definition default_case_node : gmap string value :=
  list_to_map [ ("type", VStr "SwitchCase"); ("test", VNull) ].
Definition heap_default_case : gmap loc (gmap string value) :=
  list_to_map [ (1%positive, default_case_node) ].

End NoExtraParens.

(** * Properties *)

(** ** Spacing policy resolution (generator-star-spacing) *)

Section PolicyResolution.
Import GeneratorStarSpacing.

(** C4. The structured object [{before:true, after:false}] resolves, for
    every bucket and side, to the policy of the shorthand ["before"], and
    [{before:false, after:false}] to that of ["neither"], both as the whole
    option and as the override of a single bucket; a bucket without an
    override resolves to the global default with the top-level
    [before]/[after] already applied.  The resolved [modes] depend on the
    options alone, so they are computed once and passed to every check. *)
Theorem C4_policy_round_trip :
  (forall kind side,
      lookup_mode (modes (OObject (Some true) (Some false) OUndefined OUndefined OUndefined))
                  kind side
      = lookup_mode (modes (OString SBefore)) kind side
      /\ lookup_mode (modes (OObject (Some false) (Some false) OUndefined OUndefined OUndefined))
                     kind side
         = lookup_mode (modes (OString SNeither)) kind side)
  /\ (forall b a n an m kind side n' an' m',
         lookup_mode
           (modes (withOverride kind (OObject (Some true) (Some false) n' an' m')
                                (OObject b a n an m))) kind side
         = lookup_mode (modes (withOverride kind (OString SBefore) (OObject b a n an m)))
                       kind side
         /\ lookup_mode
              (modes (withOverride kind (OObject (Some false) (Some false) n' an' m')
                                   (OObject b a n an m))) kind side
            = lookup_mode (modes (withOverride kind (OString SNeither) (OObject b a n an m)))
                          kind side)
  /\ (forall b a n an m kind,
         policyOf (modes (withOverride kind OUndefined (OObject b a n an m))) kind
         = globalDefault (OObject b a n an m)
         /\ globalDefault (OObject b a n an m)
            = mkPolicy (default true b) (default false a))
  /\ (forall s kind, policyOf (modes (OString s)) kind = optionDefinitions s)
  /\ (forall kind, policyOf (modes OUndefined) kind = mkPolicy true false).
Proof.
  split; [| split; [| split; [| split]]].
  - intros kind side; split; destruct kind, side; reflexivity.
  - intros b a n an m kind side n' an' m'; split; destruct kind, side; reflexivity.
  - intros b a n an m kind; split; destruct kind; reflexivity.
  - intros s kind; destruct s, kind; reflexivity.
  - intros kind; destruct kind; reflexivity.
Qed.

End PolicyResolution.

(** ** The spacing check of one token pair *)

Section SpacingCheck.
Import GeneratorStarSpacing.

Lemma truthy_pos (g : Z) : 0 <= g -> Js.truthy g = (0 <? g).
Proof.
  intros Hg. unfold Js.truthy.
  destruct (Z.eqb_spec g 0), (Z.ltb_spec 0 g); simpl; try reflexivity; lia.
Qed.

Lemma checkSpacing_reports modes kind side leftToken rightToken :
  checkSpacing modes kind side leftToken rightToken <> []
  <-> Js.truthy (gap leftToken rightToken) <> lookup_mode modes kind side.
Proof.
  unfold checkSpacing.
  destruct (Js.truthy (gap leftToken rightToken)), (lookup_mode modes kind side);
    simpl; split; intros H; congruence.
Qed.

(** The tokens the rules fetch around the delimiter never overlap it. *)
Lemma getTokenBefore_gap sc range filter t :
  getTokenBefore sc range filter = Some t -> tok_end t <= fst range.
Proof.
  unfold getTokenBefore. intros H. apply find_some in H as [_ H].
  apply andb_true_iff in H as [H _]. lia.
Qed.

Lemma getTokenAfter_gap sc range filter t :
  getTokenAfter sc range filter = Some t -> snd range <= tok_start t.
Proof.
  unfold getTokenAfter. intros H. apply find_some in H as [_ H].
  apply andb_true_iff in H as [H _]. lia.
Qed.

(** C1.  The pairs the spacing rules check are fetched from the token
    stream: the token before or after the star in [checkFunction], the
    tokens before and after the arrow in [getTokens].  For every such pair
    [checkSpacing] of generator-star-spacing and both halves of [spaces]
    of arrow-spacing report a violation exactly when [(gap > 0)] differs
    from the policy's boolean for that side, where [gap] is
    [rightToken.start - leftToken.end]: a gap of zero or less is "no
    space", every positive gap is "space present", whatever its width. *)
Theorem C1_violation_iff_gap_differs (sourceCode : SourceCode) (leftToken rightToken : Token)
        (Hfetched : getTokenBefore sourceCode (tok_range rightToken) anyToken = Some leftToken
                    \/ getTokenAfter sourceCode (tok_range leftToken) anyToken
                       = Some rightToken) :
  (forall modes kind side,
      checkSpacing modes kind side leftToken rightToken <> []
      <-> (0 <? gap leftToken rightToken) <> lookup_mode modes kind side)
  /\ (forall rule afterToken,
         let tokens := ArrowSpacing.mkTokens leftToken rightToken afterToken in
         ArrowSpacing.spacesBefore rule tokens (ArrowSpacing.countSpaces tokens) <> []
         <-> (0 <? gap leftToken rightToken) <> ArrowSpacing.before rule)
  /\ (forall rule beforeToken,
         let tokens := ArrowSpacing.mkTokens beforeToken leftToken rightToken in
         ArrowSpacing.spacesAfter rule tokens (ArrowSpacing.countSpaces tokens) <> []
         <-> (0 <? gap leftToken rightToken) <> ArrowSpacing.after rule).
Proof.
  assert (Hgap : 0 <= gap leftToken rightToken).
  { unfold gap. destruct Hfetched as [H | H].
    - apply getTokenBefore_gap in H. unfold tok_start. lia.
    - apply getTokenAfter_gap in H. unfold tok_end. lia. }
  clear Hfetched. unfold gap in *. split; [| split].
  - intros modes kind side. rewrite checkSpacing_reports.
    unfold gap. rewrite truthy_pos by assumption. reflexivity.
  - intros rule afterToken. cbv zeta.
    unfold ArrowSpacing.spacesBefore, ArrowSpacing.countSpaces; simpl.
    destruct (ArrowSpacing.before rule);
      destruct (Z.eqb_spec (tok_start rightToken - tok_end leftToken) 0);
      destruct (Z.ltb_spec 0 (tok_start rightToken - tok_end leftToken));
      split; intros Hreport; try congruence; try lia.
  - intros rule beforeToken. cbv zeta.
    unfold ArrowSpacing.spacesAfter, ArrowSpacing.countSpaces; simpl.
    destruct (ArrowSpacing.after rule);
      destruct (Z.eqb_spec (tok_start rightToken - tok_end leftToken) 0);
      destruct (Z.ltb_spec 0 (tok_start rightToken - tok_end leftToken));
      split; intros Hreport; try congruence; try lia.
Qed.

(** The pair [function] / [*] of [function* foo() {}], fetched as the token
    before the star: its gap is zero and the default policy asks for a
    space, so a violation is reported. *)
Lemma C1_violation_iff_gap_differs_witness :
  let leftToken := mkToken 0 "Keyword" "function" (0, 8) in
  let rightToken := mkToken 1 "Punctuator" "*" (8, 9) in
  getTokenBefore src_star_then_space (tok_range rightToken) anyToken = Some leftToken
  /\ checkSpacing (modes OUndefined) Named Before leftToken rightToken <> [].
Proof.
  intros leftToken rightToken.
  assert (Hfetched : getTokenBefore src_star_then_space (tok_range rightToken) anyToken
                     = Some leftToken) by reflexivity.
  split; [exact Hfetched |].
  apply (proj1 (C1_violation_iff_gap_differs src_star_then_space leftToken rightToken
                  (or_introl Hfetched))
               (modes OUndefined) Named Before).
  vm_compute. discriminate.
Defined.

End SpacingCheck.

(** ** generator-star-spacing on a function *)

Section GeneratorCheck.
Import GeneratorStarSpacing.

Lemma getStarToken_value sc fn star :
  getStarToken sc fn = Some star -> tok_value star = "*".
Proof.
  unfold getStarToken, getFirstToken. intros H.
  apply find_some in H as [_ H].
  apply andb_true_iff in H as [_ H]. unfold isStarToken in H.
  apply andb_true_iff in H as [H _]. apply String.eqb_eq in H. exact H.
Qed.

Lemma checkSpacing_node modes kind side leftToken rightToken r :
  In r (checkSpacing modes kind side leftToken rightToken) ->
  node r = if String.eqb (tok_value leftToken) "*" then leftToken else rightToken.
Proof.
  unfold checkSpacing.
  destruct (negb _); simpl; [| tauto].
  intros [<- | []]. reflexivity.
Qed.

Lemma checkSpacing_messageId modes kind side leftToken rightToken r :
  In r (checkSpacing modes kind side leftToken rightToken) ->
  messageId r
  = (if lookup_mode modes kind side then "missing" else "unexpected")
      +:+ capitalize (side_name side).
Proof.
  unfold checkSpacing.
  destruct (negb _); simpl; [| tauto].
  intros [<- | []]. reflexivity.
Qed.

(** What [checkFunction] does on a generator whose star and next token
    are found. *)
Lemma checkFunction_generator modes sc fn star next :
  generator fn = true ->
  getStarToken sc fn = Some star ->
  getTokenAfter sc (tok_range star) anyToken = Some next ->
  checkFunction modes sc fn
  = (if negb (Kind_eqb (kindOf fn) Method && starIsFirstOfParent sc fn star)
     then checkSpacing' modes (kindOf fn) Before
                        (getTokenBefore sc (tok_range star) anyToken) (Some star)
     else Some [])
      ≫= fun r1 => Some (r1 ++ checkSpacing modes (kindOf fn) After star next).
Proof.
  intros Hgen Hstar Hnext. unfold checkFunction.
  rewrite Hgen, Hstar. simpl. rewrite Hnext. simpl.
  destruct (if negb _ then _ else _); reflexivity.
Qed.

Lemma Kind_eqb_eq a b : Kind_eqb a b = true <-> a = b.
Proof. destruct a, b; simpl; split; congruence. Qed.

(** C6. For a generator in the method bucket whose star is the first
    token of the owning member, [checkFunction] runs the after-side check
    only, so every report is an after-side one; for every other generator
    it runs the before-side check and then the after-side check. *)
Theorem C6_before_side_skipped modes sc fn star next
        (Hgen : generator fn = true)
        (Hstar : getStarToken sc fn = Some star)
        (Hnext : getTokenAfter sc (tok_range star) anyToken = Some next) :
  (kindOf fn = Method -> starIsFirstOfParent sc fn star = true ->
   checkFunction modes sc fn = Some (checkSpacing modes Method After star next)
   /\ forall reports r,
       checkFunction modes sc fn = Some reports -> In r reports ->
       messageId r = "missingAfter" \/ messageId r = "unexpectedAfter")
  /\ (~ (kindOf fn = Method /\ starIsFirstOfParent sc fn star = true) ->
      forall prev,
        getTokenBefore sc (tok_range star) anyToken = Some prev ->
        checkFunction modes sc fn
        = Some (checkSpacing modes (kindOf fn) Before prev star
                ++ checkSpacing modes (kindOf fn) After star next)).
Proof.
  rewrite (checkFunction_generator modes sc fn star next Hgen Hstar Hnext). split.
  - intros Hkind Hfirst. rewrite Hkind, Hfirst. simpl. split; [reflexivity |].
    intros reports r [= <-] Hin.
    apply checkSpacing_messageId in Hin. rewrite Hin.
    destruct (lookup_mode modes Method After); [left | right]; reflexivity.
  - intros Hnot prev Hprev.
    destruct (Kind_eqb (kindOf fn) Method && starIsFirstOfParent sc fn star) eqn:Hguard.
    + exfalso. apply Hnot. apply andb_true_iff in Hguard as [Hk Hf].
      apply Kind_eqb_eq in Hk. split; assumption.
    + simpl. rewrite Hprev. reflexivity.
Qed.

(** The method [*foo(){}] directly after the brace of [class A {]: the gap
    before the star is zero and the default policy requires a space there,
    yet nothing is reported. *)
Lemma C6_before_side_skipped_witness :
  checkFunction (modes OUndefined) src_class_method fn_class_method = Some []
  /\ checkSpacing (modes OUndefined) Method Before
                  (mkToken 2 "Punctuator" "{" (8, 9)) (mkToken 3 "Punctuator" "*" (9, 10))
     <> [].
Proof.
  split.
  - exact (proj1 (proj1 (C6_before_side_skipped
                           (modes OUndefined) src_class_method fn_class_method
                           (mkToken 3 "Punctuator" "*" (9, 10))
                           (mkToken 4 "Identifier" "foo" (10, 13))
                           eq_refl eq_refl eq_refl)
                        eq_refl eq_refl)).
  - vm_compute. discriminate.
Defined.

(** C3 (as amended).  Under the default policy the source
    [function *foo(){}] produces no violation, while [function* foo() {}]
    produces exactly two, [missingBefore] and [unexpectedAfter], both
    located at the star; applying both fixes (one space inserted before
    the star, the gap after it deleted) yields [function *foo() {}]. *)
Theorem C3_default_policy_examples :
  checkFunction (modes OUndefined) src_space_then_star fn_space_then_star = Some []
  /\ (summary <$> checkFunction (modes OUndefined) src_star_then_space fn_star_then_space)
     = Some [("missingBefore", 1%nat); ("unexpectedAfter", 1%nat)]
  /\ (fixes <$> checkFunction (modes OUndefined) src_star_then_space fn_star_then_space)
     = Some [mkTextEdit 8 8 " "; mkTextEdit 9 10 ""]
  /\ ((fun rs => applyFixes (text src_star_then_space) (fixes rs))
        <$> checkFunction (modes OUndefined) src_star_then_space fn_star_then_space)
     = Some "function *foo() {}"
  /\ wf_tokens src_star_then_space && tokens_match_text src_star_then_space
     && wf_tokens src_space_then_star && tokens_match_text src_space_then_star = true.
Proof. repeat split; vm_compute; reflexivity. Qed.

(** C3 as stated fails on both sources: [function* foo() {}] is reported
    twice and [function *foo(){}] not at all. *)
Lemma C3_examples_counterexample :
  (summary <$> checkFunction (modes OUndefined) src_star_then_space fn_star_then_space)
  <> Some []
  /\ (summary <$> checkFunction (modes OUndefined) src_space_then_star fn_space_then_star)
     <> Some [("missingBefore", 1%nat); ("unexpectedAfter", 1%nat)]
  /\ text src_star_then_space = "function* foo() {}"
  /\ text src_space_then_star = "function *foo(){}".
Proof. repeat split; vm_compute; discriminate. Qed.

End GeneratorCheck.

(** ** Where a spacing violation is located *)

Section ReportLocation.
Import GeneratorStarSpacing.

Lemma star_is_not_left (leftToken : Token) :
  tok_value leftToken <> "*" -> String.eqb (tok_value leftToken) "*" = false.
Proof. intros H. apply String.eqb_neq. exact H. Qed.

(** C5 (as amended).  Every violation of generator-star-spacing is
    located at the star token itself, before-side and after-side,
    missing and unexpected alike (when the token before the star is not
    itself a [*]); every violation of arrow-spacing is located at the
    token next to the arrow on the side checked: the token before the
    arrow for [expectedBefore] and [unexpectedBefore], the token after it
    for [expectedAfter] and [unexpectedAfter]. *)
Theorem C5_report_location :
  (forall modes sc fn star reports r,
      getStarToken sc fn = Some star ->
      (forall prev, getTokenBefore sc (tok_range star) anyToken = Some prev ->
                    tok_value prev <> "*") ->
      checkFunction modes sc fn = Some reports ->
      In r reports ->
      node r = star)
  /\ (forall isArrowToken rule sc fn tokens reports r,
         ArrowSpacing.getTokens isArrowToken sc fn = Some tokens ->
         ArrowSpacing.spaces isArrowToken rule sc fn = Some reports ->
         In r reports ->
         ((messageId r = "expectedBefore" \/ messageId r = "unexpectedBefore")
          /\ node r = ArrowSpacing.t_before tokens)
         \/ ((messageId r = "expectedAfter" \/ messageId r = "unexpectedAfter")
             /\ node r = ArrowSpacing.t_after tokens)).
Proof.
  split.
  - intros modes sc fn star reports r Hstar Hprev Hcheck Hin.
    unfold checkFunction in Hcheck.
    destruct (generator fn); simpl in Hcheck;
      [| injection Hcheck as <-; destruct Hin].
    rewrite Hstar in Hcheck. simpl in Hcheck.
    pose proof (getStarToken_value sc fn star Hstar) as Hvalue.
    destruct (getTokenAfter sc (tok_range star) anyToken) as [next|];
      [| destruct (if negb _ then _ else _); discriminate].
    assert (Hafter : forall r, In r (checkSpacing modes (kindOf fn) After star next) ->
                               node r = star).
    { intros r' Hr'. apply checkSpacing_node in Hr'. rewrite Hvalue in Hr'. exact Hr'. }
    destruct (negb _).
    + destruct (getTokenBefore sc (tok_range star) anyToken) as [prev|] eqn:Hp;
        [| discriminate].
      simpl in Hcheck. injection Hcheck as <-.
      apply in_app_or in Hin as [Hin | Hin]; [| auto].
      apply checkSpacing_node in Hin.
      rewrite (star_is_not_left prev (Hprev prev eq_refl)) in Hin. exact Hin.
    + simpl in Hcheck. injection Hcheck as <-. auto.
  - intros isArrowToken rule sc fn tokens reports r Htokens Hspaces Hin.
    unfold ArrowSpacing.spaces in Hspaces. rewrite Htokens in Hspaces.
    simpl in Hspaces. injection Hspaces as <-.
    apply in_app_or in Hin as [Hin | Hin]; [left | right].
    + unfold ArrowSpacing.spacesBefore in Hin.
      destruct (ArrowSpacing.before rule);
        match type of Hin with In _ (if ?c then _ else _) => destruct c end;
        simpl in Hin; try tauto; destruct Hin as [<- | []]; simpl; tauto.
    + unfold ArrowSpacing.spacesAfter in Hin.
      destruct (ArrowSpacing.after rule);
        match type of Hin with In _ (if ?c then _ else _) => destruct c end;
        simpl in Hin; try tauto; destruct Hin as [<- | []]; simpl; tauto.
Qed.

(** The first report of [function* foo() {}], and the second report of
    [var f = (a)=>a;]. *)
Lemma C5_report_location_witness :
  (forall reports r,
      checkFunction (modes OUndefined) src_star_then_space fn_star_then_space = Some reports ->
      In r reports -> node r = mkToken 1 "Punctuator" "*" (8, 9))
  /\ (forall reports r,
         ArrowSpacing.spaces ArrowSpacing.isArrowToken_std (ArrowSpacing.rule None)
                             ArrowSpacing.src_tight_arrow ArrowSpacing.arrow_tight
         = Some reports ->
         In r reports ->
         ((messageId r = "expectedBefore" \/ messageId r = "unexpectedBefore")
          /\ node r = mkToken 5 "Punctuator" ")" (10, 11))
         \/ ((messageId r = "expectedAfter" \/ messageId r = "unexpectedAfter")
             /\ node r = mkToken 7 "Identifier" "a" (13, 14))).
Proof.
  split.
  - intros reports r Hcheck Hin.
    refine (proj1 C5_report_location (modes OUndefined) src_star_then_space
                  fn_star_then_space _ reports r eq_refl _ Hcheck Hin).
    intros prev [= <-]. discriminate.
  - intros reports r Hspaces Hin.
    exact (proj2 C5_report_location ArrowSpacing.isArrowToken_std (ArrowSpacing.rule None)
                 ArrowSpacing.src_tight_arrow ArrowSpacing.arrow_tight
                 (ArrowSpacing.mkTokens (mkToken 5 "Punctuator" ")" (10, 11))
                                        (mkToken 6 "Punctuator" "=>" (11, 13))
                                        (mkToken 7 "Identifier" "a" (13, 14)))
                 reports r eq_refl Hspaces Hin).
Defined.

(** C5 as stated fails in both rules.  In [function* foo() {}] the
    violation [missingBefore] is located at the star (token 1), the
    delimiter, not at [function] (token 0), and so is [unexpectedAfter],
    not at [foo] (token 2).  In [var f = (a)=>a;] the violation
    [expectedAfter], which asks for a space to be inserted after the
    arrow, is located at the token after the arrow (token 7), not at the
    arrow (token 6). *)
Lemma C5_location_counterexample :
  (exists r rest star prev,
      checkFunction (modes OUndefined) src_star_then_space fn_star_then_space
      = Some (r :: rest)
      /\ getStarToken src_star_then_space fn_star_then_space = Some star
      /\ getTokenBefore src_star_then_space (tok_range star) anyToken = Some prev
      /\ messageId r = "missingBefore"
      /\ tok_id (node r) = 1%nat /\ tok_id star = 1%nat /\ tok_id prev = 0%nat
      /\ node r <> spec_location false star prev)
  /\ (exists r0 r tokens,
         ArrowSpacing.spaces ArrowSpacing.isArrowToken_std (ArrowSpacing.rule None)
                             ArrowSpacing.src_tight_arrow ArrowSpacing.arrow_tight
         = Some [r0; r]
         /\ ArrowSpacing.getTokens ArrowSpacing.isArrowToken_std
                                   ArrowSpacing.src_tight_arrow ArrowSpacing.arrow_tight
            = Some tokens
         /\ messageId r = "expectedAfter"
         /\ tok_id (node r) = 7%nat /\ tok_id (ArrowSpacing.t_arrow tokens) = 6%nat
         /\ node r <> spec_location true (ArrowSpacing.t_arrow tokens)
                                    (ArrowSpacing.t_after tokens)).
Proof.
  split.
  - do 4 eexists. split; [vm_compute; reflexivity |].
    split; [vm_compute; reflexivity |].
    split; [vm_compute; reflexivity |].
    repeat split. vm_compute. discriminate.
  - do 3 eexists. split; [vm_compute; reflexivity |].
    split; [vm_compute; reflexivity |].
    repeat split. vm_compute. discriminate.
Qed.

(** The arrow example of the specification: both violations and the text
    after both fixes. *)
Example arrow_default_fix :
  (fun rs => (summary rs, applyFixes (text ArrowSpacing.src_tight_arrow) (fixes rs)))
    <$> ArrowSpacing.spaces ArrowSpacing.isArrowToken_std (ArrowSpacing.rule None)
                            ArrowSpacing.src_tight_arrow ArrowSpacing.arrow_tight
  = Some ([("expectedBefore", 5%nat); ("expectedAfter", 7%nat)], "var f = (a) => a;").
Proof. vm_compute. reflexivity. Qed.

End ReportLocation.

(** ** jsx-newline *)

Section JsxNewlineReports.
Import JsxNewline.

Variable options0 : option Configuration.
Variable sourceCode : SourceCode.

Lemma checkChild_inv elements index element r :
  In r (checkChild options0 sourceCode elements index element) ->
  exists firstAdjacentSibling secondAdjacentSibling,
    elements !! (index + 1)%nat = Some firstAdjacentSibling
    /\ elements !! (index + 2)%nat = Some secondAdjacentSibling
    /\ (c_type firstAdjacentSibling = "Literal" \/ c_type firstAdjacentSibling = "JSXText")
    /\ (c_type element = "JSXElement" \/ c_type element = "JSXExpressionContainer")
    /\ isBlockCommentInCurlyBraces sourceCode element = false
    /\ node r = secondAdjacentSibling.
Proof.
  unfold checkChild.
  destruct (String.eqb (c_type element) "JSXElement"
            || String.eqb (c_type element) "JSXExpressionContainer") eqn:Htype;
    [| intros []].
  destruct (elements !! (index + 1)%nat) as [first|]; [| intros []].
  destruct (elements !! (index + 2)%nat) as [second|]; [| intros []].
  destruct (String.eqb (c_type first) "Literal" || String.eqb (c_type first) "JSXText")
    eqn:Hfirst; simpl; [| intros []].
  destruct (isBlockCommentInCurlyBraces sourceCode element) eqn:Hcomment; [intros [] |].
  intros Hin. exists first, second.
  apply orb_true_iff in Htype, Hfirst. rewrite !String.eqb_eq in Htype, Hfirst.
  repeat split; try assumption.
  destruct (_ && _) in Hin.
  - destruct (negb (negb _)) in Hin; [destruct Hin |].
    destruct Hin as [<- | []]. reflexivity.
  - destruct (Bool.eqb _ _) in Hin; [destruct Hin |].
    destruct Hin as [<- | []]. reflexivity.
Qed.

Lemma checkChild_short elements index element :
  (List.length elements <= index + 2)%nat ->
  checkChild options0 sourceCode elements index element = [].
Proof.
  intros Hlen. unfold checkChild.
  rewrite (lookup_ge_None_2 elements (index + 2)) by lia.
  destruct (_ || _); [| reflexivity].
  destruct (elements !! (index + 1)%nat); reflexivity.
Qed.

Lemma checkChild_comment elements index element :
  isBlockCommentInCurlyBraces sourceCode element = true ->
  checkChild options0 sourceCode elements index element = [].
Proof.
  intros Hcomment. unfold checkChild. rewrite Hcomment.
  destruct (_ || _); [| reflexivity].
  destruct (elements !! (index + 1)%nat); [| reflexivity].
  destruct (elements !! (index + 2)%nat); [| reflexivity].
  destruct (negb _); reflexivity.
Qed.

Lemma checkParent_inv parent r :
  In r (checkParent options0 sourceCode parent) ->
  exists index element,
    children parent !! index = Some element
    /\ In r (checkChild options0 sourceCode (children parent) index element).
Proof.
  unfold checkParent. intros Hin.
  apply in_concat in Hin as (rs & Hrs & Hr).
  apply list_elem_of_In, elem_of_lookup_imap in Hrs as (index & element & -> & Hlookup).
  eauto.
Qed.


End JsxNewlineReports.

Section JsxNewlineExample.
Import JsxNewline.


End JsxNewlineExample.

(** ** no-extra-parens: copies in the store *)

Section Store.
Import NoExtraParens.
Implicit Types (h : gmap loc (gmap string value)) (st : state) (o : gmap string value).

Lemma fresh_lookup h : h !! fresh (dom h) = None.
Proof. apply not_elem_of_dom, is_fresh. Qed.

Lemma lookup_fresh_ne h l o :
  h !! l = Some o -> fresh (dom h) <> l.
Proof. intros H E. rewrite <- E, fresh_lookup in H. discriminate. Qed.

Lemma bind_Some {A B} (m : M A) (f : A -> M B) st a st1 :
  m st = Some (a, st1) -> bind m f st = f a st1.
Proof. intros H. unfold bind. rewrite H. reflexivity. Qed.

Lemma getProp_ref st l o key :
  heap st !! l = Some o ->
  getProp (VRef l) key st = Some (default VUndefined (o !! key), st).
Proof. intros H. unfold getProp. rewrite H. reflexivity. Qed.

Lemma untouched_insert st st' l o :
  heap st !! l = None -> heap st' = <[l := o]> (heap st) -> untouched st st'.
Proof.
  intros Hl Hheap l' o' H'. rewrite Hheap, lookup_insert_ne; [exact H' |]. congruence.
Qed.

Lemma addsCopy_untouched st st' copy props :
  addsCopy st st' copy props -> untouched st st'.
Proof. intros [Hcopy Hheap]. eapply untouched_insert; eassumption. Qed.

Lemma addsCopyWithStandIn_untouched st st' child copy props :
  addsCopyWithStandIn st st' child copy props -> untouched st st'.
Proof.
  intros (childobj & stand_in & _ & Hcopy & Hstand & _ & Hheap) l o Hl.
  rewrite Hheap, !lookup_insert_ne by congruence. exact Hl.
Qed.

(** [{ ...node, fields }] for a node of the store. *)
Lemma objectLiteral_ref st n nodeobj fields :
  heap st !! n = Some nodeobj ->
  objectLiteral (VRef n) fields st
  = bind (defineFields (VRef (fresh (dom (heap st)))) fields)
         (fun _ => ret (VRef (fresh (dom (heap st)))))
         (mkState (<[fresh (dom (heap st)) := nodeobj]> (heap st)) (calls st)).
Proof.
  intros Hn. unfold objectLiteral, bind at 1 2, getHeap, alloc. simpl. rewrite Hn. reflexivity.
Qed.

Lemma setProp_fresh h cs l o key v :
  setProp (VRef l) key v (mkState (<[l := o]> h) cs)
  = Some (tt, mkState (<[l := <[key := v]> o]> h) cs).
Proof. unfold setProp. simpl. rewrite alter_insert_eq. reflexivity. Qed.

Lemma asSequence_spec st c childobj :
  heap st !! c = Some childobj ->
  asSequence (VRef c) st
  = Some (VRef (fresh (dom (heap st))),
          mkState (<[fresh (dom (heap st)) := <["type" := SequenceExpression]> childobj]>
                     (heap st))
                  (calls st)).
Proof.
  intros Hc. unfold asSequence. rewrite (objectLiteral_ref st c childobj) by exact Hc.
  unfold defineFields, bind, ret. rewrite setProp_fresh. reflexivity.
Qed.

(** Two objects allocated one after the other. *)
Lemma fresh_twice h o :
  let copy := fresh (dom h) in
  let stand_in := fresh (dom (<[copy := o]> h)) in
  h !! copy = None /\ h !! stand_in = None /\ copy <> stand_in.
Proof.
  intros copy stand_in.
  assert (H1 : <[copy := o]> h !! stand_in = None) by apply fresh_lookup.
  assert (Hne : copy <> stand_in).
  { intros E. rewrite <- E, lookup_insert_eq in H1. discriminate. }
  rewrite lookup_insert_ne in H1 by exact Hne.
  split; [apply fresh_lookup | split; assumption].
Qed.

Lemma withSequenceAt_spec st n key nodeobj c childobj :
  heap st !! n = Some nodeobj -> nodeobj !! key = Some (VRef c) ->
  heap st !! c = Some childobj ->
  exists copy st',
    withSequenceAt (VRef n) key st = Some (VRef copy, st')
    /\ calls st' = calls st
    /\ addsCopyWithStandIn st st' c copy (fun stand_in => <[key := VRef stand_in]> nodeobj).
Proof.
  destruct st as [h cs]. simpl. intros Hn Hkey Hc.
  destruct (fresh_twice h nodeobj) as (Hcopy & Hstand & Hne).
  set (copy := fresh (dom h)) in *.
  set (stand_in := fresh (dom (<[copy := nodeobj]> h))) in *.
  exists copy, (mkState (<[copy := <[key := VRef stand_in]> nodeobj]>
                   (<[stand_in := <["type" := SequenceExpression]> childobj]> h)) cs).
  split; [| split; [reflexivity |]].
  - unfold withSequenceAt. rewrite (objectLiteral_ref _ n nodeobj) by exact Hn.
    simpl heap. simpl calls. fold copy. unfold defineFields.
    unfold bind at 1 2 3.
    rewrite (getProp_ref _ n nodeobj).
    2:{ simpl. rewrite lookup_insert_ne; [exact Hn | congruence]. }
    rewrite Hkey. simpl default.
    rewrite (asSequence_spec _ c childobj).
    2:{ simpl. rewrite lookup_insert_ne; [exact Hc | congruence]. }
    simpl heap. simpl calls. fold stand_in.
    rewrite (insert_insert_ne _ stand_in copy) by congruence.
    unfold bind, ret. rewrite setProp_fresh. reflexivity.
  - exists childobj, stand_in. repeat split; assumption.
Qed.

Lemma withNullAt_spec st n key nodeobj :
  heap st !! n = Some nodeobj ->
  exists copy st',
    withNullAt (VRef n) key st = Some (VRef copy, st')
    /\ calls st' = calls st
    /\ addsCopy st st' copy (<[key := VNull]> nodeobj).
Proof.
  destruct st as [h cs]. simpl. intros Hn.
  exists (fresh (dom h)), (mkState (<[fresh (dom h) := <[key := VNull]> nodeobj]> h) cs).
  split; [| split; [reflexivity | split; [apply fresh_lookup | reflexivity]]].
  unfold withNullAt. rewrite (objectLiteral_ref _ n nodeobj) by exact Hn.
  unfold defineFields, bind, ret. simpl heap. simpl calls.
  rewrite setProp_fresh. reflexivity.
Qed.

Lemma asForOfWithSequenceRight_spec st n nodeobj c childobj :
  heap st !! n = Some nodeobj -> nodeobj !! "right" = Some (VRef c) ->
  heap st !! c = Some childobj ->
  exists copy st',
    asForOfWithSequenceRight (VRef n) st = Some (VRef copy, st')
    /\ calls st' = calls st
    /\ addsCopyWithStandIn st st' c copy
         (fun stand_in => <["right" := VRef stand_in]> (<["type" := ForOfStatement]> nodeobj)).
Proof.
  destruct st as [h cs]. simpl. intros Hn Hkey Hc.
  destruct (fresh_twice h (<["type" := ForOfStatement]> nodeobj)) as (Hcopy & Hstand & Hne).
  set (copy := fresh (dom h)) in *.
  assert (Hdom : dom (<[copy := <["type" := ForOfStatement]> nodeobj]> h)
                 = dom (<[copy := nodeobj]> h)) by (rewrite !dom_insert_L; reflexivity).
  set (stand_in := fresh (dom (<[copy := <["type" := ForOfStatement]> nodeobj]> h))) in *.
  exists copy,
    (mkState (<[copy := <["right" := VRef stand_in]> (<["type" := ForOfStatement]> nodeobj)]>
                (<[stand_in := <["type" := SequenceExpression]> childobj]> h)) cs).
  split; [| split; [reflexivity |]].
  - unfold asForOfWithSequenceRight. rewrite (objectLiteral_ref _ n nodeobj) by exact Hn.
    simpl heap. simpl calls. fold copy. unfold defineFields.
    unfold bind at 1 2 3, ret at 1. rewrite setProp_fresh.
    unfold bind at 1 2.
    rewrite (getProp_ref _ n nodeobj).
    2:{ simpl. rewrite lookup_insert_ne; [exact Hn | congruence]. }
    rewrite Hkey. simpl default.
    rewrite (asSequence_spec _ c childobj).
    2:{ simpl. rewrite lookup_insert_ne; [exact Hc | congruence]. }
    simpl heap. simpl calls. fold stand_in.
    rewrite (insert_insert_ne _ stand_in copy) by congruence.
    unfold bind, ret. rewrite setProp_fresh. reflexivity.
  - exists childobj, stand_in. repeat split; assumption.
Qed.

(** The object literal of [callExp], whose [arguments] is a new array
    holding the stand-in. *)
Lemma argumentsLiteral_spec st n nodeobj a argobj rest :
  heap st !! n = Some nodeobj -> heap st !! a = Some argobj ->
  exists copy st',
    objectLiteral (VRef n)
      [("arguments",
        bind (getIndex (VArr (VRef a :: rest)) 0)
             (fun argument0 => bind (asSequence argument0)
                                    (fun stand_in => ret (VArr [stand_in]))))] st
    = Some (VRef copy, st')
    /\ calls st' = calls st
    /\ addsCopyWithStandIn st st' a copy
         (fun stand_in => <["arguments" := VArr [VRef stand_in]]> nodeobj).
Proof.
  destruct st as [h cs]. simpl. intros Hn Ha.
  destruct (fresh_twice h nodeobj) as (Hcopy & Hstand & Hne).
  set (copy := fresh (dom h)) in *.
  set (stand_in := fresh (dom (<[copy := nodeobj]> h))) in *.
  exists copy, (mkState (<[copy := <["arguments" := VArr [VRef stand_in]]> nodeobj]>
                   (<[stand_in := <["type" := SequenceExpression]> argobj]> h)) cs).
  split; [| split; [reflexivity |]].
  - rewrite (objectLiteral_ref _ n nodeobj) by exact Hn.
    simpl heap. simpl calls. fold copy. unfold defineFields, getIndex.
    unfold bind at 1 2 3 4, ret at 1. simpl default.
    rewrite (asSequence_spec _ a argobj).
    2:{ simpl. rewrite lookup_insert_ne; [exact Ha | congruence]. }
    simpl heap. simpl calls. fold stand_in.
    rewrite (insert_insert_ne _ stand_in copy) by congruence.
    unfold bind, ret. rewrite setProp_fresh. reflexivity.
  - exists argobj, stand_in. repeat split; assumption.
Qed.

End Store.


(** ** no-extra-parens: binary and logical expressions *)

Section Delegation.
Import NoExtraParens.

Variable rules : gset string.
Variable isTypeAssertion : gmap loc (gmap string value) -> value -> bool.

Lemma isTA_eq v st : isTA isTypeAssertion v st = Some (isTypeAssertion (heap st) v, st).
Proof. reflexivity. Qed.

Lemma callRule_ok key arg st :
  hasRule rules key = true ->
  callRule rules key arg st = Some (tt, mkState (heap st) (calls st ++ [(key, arg)])).
Proof. intros H. unfold callRule. rewrite H. reflexivity. Qed.

(** A handler that hands the callback [ruleKey] a copy with a stand-in. *)
Lemma call_with_copy (m : M value) ruleKey st child props :
  hasRule rules ruleKey = true ->
  (exists copy st1, m st = Some (VRef copy, st1) /\ calls st1 = calls st
                    /\ addsCopyWithStandIn st st1 child copy props) ->
  exists copy st',
    bind m (fun arg => callRule rules ruleKey arg) st = Some (tt, st')
    /\ invoked st st' ruleKey (VRef copy)
    /\ addsCopyWithStandIn st st' child copy props
    /\ untouched st st'.
Proof.
  intros Hrule (copy & st1 & Hm & Hcalls & Hadds).
  exists copy, (mkState (heap st1) (calls st1 ++ [(ruleKey, VRef copy)])).
  split; [| split; [| split]].
  - rewrite (bind_Some _ _ _ _ _ Hm). apply callRule_ok. exact Hrule.
  - unfold invoked. simpl. rewrite Hcalls. reflexivity.
  - exact Hadds.
  - apply addsCopyWithStandIn_untouched in Hadds. exact Hadds.
Qed.

(** C2. For a binary or logical expression of which exactly one operand
    is a type assertion, [binaryExp] invokes the base rule's
    [BinaryExpression] callback once, on a new object that has the
    node's properties but for that operand, which is a new object with
    the operand's properties but for its [type], now
    [SequenceExpression]; no object of the AST is written to.  When both
    operands are type assertions the callback is not invoked and the
    state is unchanged.  (When neither is, the callback receives the
    node itself.) *)
Theorem C2_binaryExp_type_assertion_operands st n nodeobj
        (Hnode : heap st !! n = Some nodeobj) :
  let left := default VUndefined (nodeobj !! "left") in
  let right := default VUndefined (nodeobj !! "right") in
  (forall l leftobj,
      nodeobj !! "left" = Some (VRef l) -> heap st !! l = Some leftobj ->
      isTypeAssertion (heap st) left = true ->
      isTypeAssertion (heap st) right = false ->
      hasRule rules "BinaryExpression" = true ->
      exists copy st',
        binaryExp rules isTypeAssertion (VRef n) st = Some (tt, st')
        /\ invoked st st' "BinaryExpression" (VRef copy)
        /\ addsCopyWithStandIn st st' l copy
             (fun stand_in => <["left" := VRef stand_in]> nodeobj)
        /\ untouched st st')
  /\ (forall r rightobj,
         nodeobj !! "right" = Some (VRef r) -> heap st !! r = Some rightobj ->
         isTypeAssertion (heap st) left = false ->
         isTypeAssertion (heap st) right = true ->
         hasRule rules "BinaryExpression" = true ->
         exists copy st',
           binaryExp rules isTypeAssertion (VRef n) st = Some (tt, st')
           /\ invoked st st' "BinaryExpression" (VRef copy)
           /\ addsCopyWithStandIn st st' r copy
                (fun stand_in => <["right" := VRef stand_in]> nodeobj)
           /\ untouched st st')
  /\ (isTypeAssertion (heap st) left = true ->
      isTypeAssertion (heap st) right = true ->
      binaryExp rules isTypeAssertion (VRef n) st = Some (tt, st))
  /\ (isTypeAssertion (heap st) left = false ->
      isTypeAssertion (heap st) right = false ->
      hasRule rules "BinaryExpression" = true ->
      binaryExp rules isTypeAssertion (VRef n) st
      = Some (tt, mkState (heap st) (calls st ++ [("BinaryExpression", VRef n)]))).
Proof.
  intros left right.
  assert (Hstart : forall k : bool -> bool -> M unit,
             bind (getProp (VRef n) "left")
                  (fun l => bind (isTA isTypeAssertion l)
                    (fun a => bind (getProp (VRef n) "right")
                      (fun r => bind (isTA isTypeAssertion r) (fun b => k a b)))) st
             = k (isTypeAssertion (heap st) left) (isTypeAssertion (heap st) right) st).
  { intros k. unfold bind. rewrite (getProp_ref st n nodeobj "left" Hnode), isTA_eq.
    rewrite (getProp_ref st n nodeobj "right" Hnode), isTA_eq. reflexivity. }
  unfold binaryExp. rewrite Hstart. clear Hstart.
  split; [| split; [| split]].
  - intros l leftobj Hl Hlobj Hleft Hright Hrule. rewrite Hleft, Hright. simpl.
    apply call_with_copy; [exact Hrule |].
    apply (withSequenceAt_spec st n "left" nodeobj l leftobj); assumption.
  - intros r rightobj Hr Hrobj Hleft Hright Hrule. rewrite Hleft, Hright. simpl.
    apply call_with_copy; [exact Hrule |].
    apply (withSequenceAt_spec st n "right" nodeobj r rightobj); assumption.
  - intros Hleft Hright. rewrite Hleft, Hright. reflexivity.
  - intros Hleft Hright Hrule. rewrite Hleft, Hright. simpl.
    apply callRule_ok. exact Hrule.
Qed.

End Delegation.

Section DelegationExamples.
Import NoExtraParens.

(** [(x as T) + y]: the left operand alone is a type assertion. *)
Lemma C2_binaryExp_type_assertion_operands_witness :
  exists copy st',
    binaryExp rules_per_kind isTypeAssertion_std (VRef 1%positive) (initial heap_binary)
    = Some (tt, st')
    /\ invoked (initial heap_binary) st' "BinaryExpression" (VRef copy)
    /\ addsCopyWithStandIn (initial heap_binary) st' 2%positive copy
         (fun stand_in => <["left" := VRef stand_in]> binary_node)
    /\ untouched (initial heap_binary) st'.
Proof.
  refine (proj1 (C2_binaryExp_type_assertion_operands
                   rules_per_kind isTypeAssertion_std (initial heap_binary)
                   1%positive binary_node _)
                2%positive as_node _ _ _ _ _);
    vm_compute; reflexivity.
Defined.

End DelegationExamples.

(** ** no-extra-parens: calls, [for] statements and for-in/for-of *)

Section CallsAndLoops.
Import NoExtraParens.

Variable rules : gset string.
Variable sourceCode : SourceCode.
Variable isTypeAssertion : gmap loc (gmap string value) -> value -> bool.
Variable isOpeningParenToken : Token -> bool.

Lemma rangeOf_ref st l o a b :
  heap st !! l = Some o -> o !! "range" = Some (VArr [VNum a; VNum b]) ->
  rangeOf (VRef l) st = Some ((a, b), st).
Proof.
  intros Hl Hr. unfold rangeOf.
  rewrite (bind_Some _ _ _ _ _ (getProp_ref st l o "range" Hl)), Hr. reflexivity.
Qed.


Lemma presentTypeAssertion_eq st n nodeobj key :
  heap st !! n = Some nodeobj ->
  presentTypeAssertion isTypeAssertion (VRef n) key st
  = Some (isTypeAssertionClause isTypeAssertion (heap st) nodeobj key, st).
Proof.
  intros Hn. unfold presentTypeAssertion, isTypeAssertionClause.
  rewrite (bind_Some _ _ _ _ _ (getProp_ref st n nodeobj key Hn)).
  destruct (truthy _); reflexivity.
Qed.

Lemma call_with_null_copy ruleKey st n key nodeobj :
  hasRule rules ruleKey = true ->
  heap st !! n = Some nodeobj ->
  exists copy st',
    bind (withNullAt (VRef n) key) (fun arg => callRule rules ruleKey arg) st = Some (tt, st')
    /\ invoked st st' ruleKey (VRef copy)
    /\ addsCopy st st' copy (<[key := VNull]> nodeobj)
    /\ untouched st st'.
Proof.
  intros Hrule Hn.
  destruct (withNullAt_spec st n key nodeobj Hn) as (copy & st1 & Hm & Hcalls & Hadds).
  exists copy, (mkState (heap st1) (calls st1 ++ [(ruleKey, VRef copy)])).
  split; [| split; [| split]].
  - rewrite (bind_Some _ _ _ _ _ Hm). apply callRule_ok. exact Hrule.
  - unfold invoked. simpl. rewrite Hcalls. reflexivity.
  - exact Hadds.
  - apply addsCopy_untouched in Hadds. exact Hadds.
Qed.

(** What [ForStatement] does: the first clause, in the order init, test,
    update, that is a type assertion decides. *)
Lemma ForStatement_run st n nodeobj :
  heap st !! n = Some nodeobj ->
  ForStatement rules isTypeAssertion (VRef n) st
  = (if isTypeAssertionClause isTypeAssertion (heap st) nodeobj "init"
     then bind (withNullAt (VRef n) "init") (fun arg => callRule rules "ForStatement" arg)
     else if isTypeAssertionClause isTypeAssertion (heap st) nodeobj "test"
     then bind (withNullAt (VRef n) "test") (fun arg => callRule rules "ForStatement" arg)
     else if isTypeAssertionClause isTypeAssertion (heap st) nodeobj "update"
     then bind (withNullAt (VRef n) "update") (fun arg => callRule rules "ForStatement" arg)
     else callRule rules "ForStatement" (VRef n)) st.
Proof.
  intros Hn. unfold ForStatement.
  rewrite (bind_Some _ _ _ _ _ (presentTypeAssertion_eq st n nodeobj "init" Hn)).
  destruct (isTypeAssertionClause _ _ _ "init"); [reflexivity |].
  rewrite (bind_Some _ _ _ _ _ (presentTypeAssertion_eq st n nodeobj "test" Hn)).
  destruct (isTypeAssertionClause _ _ _ "test"); [reflexivity |].
  rewrite (bind_Some _ _ _ _ _ (presentTypeAssertion_eq st n nodeobj "update" Hn)).
  destruct (isTypeAssertionClause _ _ _ "update"); reflexivity.
Qed.

(** C8 (as amended).  For a [for] statement of which exactly one of the
    clauses init, test and update is a type assertion, the override
    invokes the base rule's [ForStatement] callback on a new object with
    the node's properties but for that clause, which is [null] (the
    clause is removed, not replaced by a stand-in), so the other clauses
    are checked as they are; no object of the AST is written to.  When no
    clause is a type assertion the callback receives the node itself. *)
Theorem C8_for_statement_single_clause st n nodeobj
        (Hnode : heap st !! n = Some nodeobj)
        (Hrule : hasRule rules "ForStatement" = true) :
  let clause := isTypeAssertionClause isTypeAssertion (heap st) nodeobj in
  (forall key,
      (key = "init" /\ clause "init" = true /\ clause "test" = false /\ clause "update" = false)
      \/ (key = "test" /\ clause "init" = false /\ clause "test" = true
          /\ clause "update" = false)
      \/ (key = "update" /\ clause "init" = false /\ clause "test" = false
          /\ clause "update" = true) ->
      exists copy st',
        ForStatement rules isTypeAssertion (VRef n) st = Some (tt, st')
        /\ invoked st st' "ForStatement" (VRef copy)
        /\ addsCopy st st' copy (<[key := VNull]> nodeobj)
        /\ untouched st st')
  /\ (clause "init" = false -> clause "test" = false -> clause "update" = false ->
      ForStatement rules isTypeAssertion (VRef n) st
      = Some (tt, mkState (heap st) (calls st ++ [("ForStatement", VRef n)]))).
Proof.
  intros clause. rewrite (ForStatement_run st n nodeobj Hnode). fold clause. split.
  - intros key [(-> & H1 & H2 & H3) | [(-> & H1 & H2 & H3) | (-> & H1 & H2 & H3)]];
      rewrite H1, ?H2, ?H3; apply call_with_null_copy; assumption.
  - intros H1 H2 H3. rewrite H1, H2, H3. apply callRule_ok. exact Hrule.
Qed.

Lemma create_lookup key :
  create rules !! key
  = match overrides rules !! key with
    | Some h => Some h
    | None => if hasRule rules key then Some (Base key) else None
    end.
Proof.
  unfold create. rewrite lookup_union, map_lookup_imap, lookup_gset_to_gmap.
  unfold hasRule. destruct (overrides rules !! key); simpl.
  - destruct (guard _ ≫= _); reflexivity.
  - case_bool_decide; case_guard; simpl; try reflexivity; contradiction.
Qed.

Lemma overrides_combined :
  hasRule rules "ForInStatement" && hasRule rules "ForOfStatement" = false ->
  overrides rules !! combined = Some H_ForInOrOfStatement
  /\ overrides rules !! "ForInStatement" = None
  /\ overrides rules !! "ForOfStatement" = None.
Proof.
  intros H. unfold overrides. rewrite H. repeat split; vm_compute; reflexivity.
Qed.

Lemma overrides_per_kind :
  hasRule rules "ForInStatement" && hasRule rules "ForOfStatement" = true ->
  overrides rules !! "ForInStatement" = Some H_ForInStatement
  /\ overrides rules !! "ForOfStatement" = Some H_ForOfStatement
  /\ overrides rules !! combined = None.
Proof.
  intros H. unfold overrides. rewrite H. repeat split; vm_compute; reflexivity.
Qed.

Lemma visit_handler key h node :
  create rules !! key = Some h ->
  visit rules sourceCode isTypeAssertion isOpeningParenToken key node
  = runHandler rules sourceCode isTypeAssertion isOpeningParenToken h node.
Proof. intros H. unfold visit. rewrite H. reflexivity. Qed.

Lemma loop_right st n nodeobj r (k : bool -> M unit) :
  heap st !! n = Some nodeobj -> nodeobj !! "right" = Some (VRef r) ->
  bind (getProp (VRef n) "right") (fun right => bind (isTA isTypeAssertion right) k) st
  = k (isTypeAssertion (heap st) (VRef r)) st.
Proof.
  intros Hn Hr.
  rewrite (bind_Some _ _ _ _ _ (getProp_ref st n nodeobj "right" Hn)), Hr. reflexivity.
Qed.

(** C9 (as amended).  The listener is built for every host.  When the
    base rule lacks one of the per-kind callbacks [ForInStatement] and
    [ForOfStatement], the override is installed under the combined
    selector and no per-kind override is; visiting a for-in or for-of
    whose right-hand side is a type assertion then hands the base rule's
    combined callback (when the host has it) a new object with the
    node's properties but for [type], now [ForOfStatement], and [right],
    a stand-in of kind [SequenceExpression]: the target is substituted.
    When both per-kind callbacks are present, the per-kind overrides are
    installed and the combined one is not; a for-of with such a target is
    substituted in the same way, and a for-in with such a target is
    skipped outright: the base rule is not invoked and the state is
    unchanged. *)
Theorem C9_for_in_of_overrides st n nodeobj r rightobj
        (Hnode : heap st !! n = Some nodeobj)
        (Hright : nodeobj !! "right" = Some (VRef r))
        (Hrightobj : heap st !! r = Some rightobj)
        (Hassertion : isTypeAssertion (heap st) (VRef r) = true) :
  let visit := visit rules sourceCode isTypeAssertion isOpeningParenToken in
  let substituted key st' copy :=
    invoked st st' key (VRef copy)
    /\ addsCopyWithStandIn st st' r copy
         (fun stand_in => <["right" := VRef stand_in]> (<["type" := ForOfStatement]> nodeobj))
    /\ untouched st st' in
  (hasRule rules "ForInStatement" && hasRule rules "ForOfStatement" = false ->
   create rules !! combined = Some H_ForInOrOfStatement
   /\ create rules !! "ForInStatement" <> Some H_ForInStatement
   /\ create rules !! "ForOfStatement" <> Some H_ForOfStatement
   /\ (hasRule rules combined = true ->
       exists copy st', visit combined (VRef n) st = Some (tt, st')
                        /\ substituted combined st' copy))
  /\ (hasRule rules "ForInStatement" && hasRule rules "ForOfStatement" = true ->
      create rules !! "ForInStatement" = Some H_ForInStatement
      /\ create rules !! "ForOfStatement" = Some H_ForOfStatement
      /\ create rules !! combined <> Some H_ForInOrOfStatement
      /\ visit "ForInStatement" (VRef n) st = Some (tt, st)
      /\ exists copy st', visit "ForOfStatement" (VRef n) st = Some (tt, st')
                          /\ substituted "ForOfStatement" st' copy).
Proof.
  intros visit substituted. split.
  - intros Hhost. destruct (overrides_combined Hhost) as (Hc & Hin & Hof).
    assert (Hcreate : create rules !! combined = Some H_ForInOrOfStatement)
      by (rewrite create_lookup, Hc; reflexivity).
    split; [exact Hcreate |]. split; [| split].
    + rewrite create_lookup, Hin. destruct (hasRule rules "ForInStatement"); discriminate.
    + rewrite create_lookup, Hof. destruct (hasRule rules "ForOfStatement"); discriminate.
    + intros Hrule. unfold visit. rewrite (visit_handler _ _ _ Hcreate).
      simpl. unfold ForInOrOfStatement.
      rewrite (loop_right st n nodeobj r _ Hnode Hright), Hassertion.
      apply call_with_copy; [exact Hrule |].
      apply (asForOfWithSequenceRight_spec st n nodeobj r rightobj); assumption.
  - intros Hhost. destruct (overrides_per_kind Hhost) as (Hin & Hof & Hc).
    assert (Hcreate_in : create rules !! "ForInStatement" = Some H_ForInStatement)
      by (rewrite create_lookup, Hin; reflexivity).
    assert (Hcreate_of : create rules !! "ForOfStatement" = Some H_ForOfStatement)
      by (rewrite create_lookup, Hof; reflexivity).
    split; [exact Hcreate_in |]. split; [exact Hcreate_of |]. split; [| split].
    + rewrite create_lookup, Hc. destruct (hasRule rules combined); discriminate.
    + unfold visit. rewrite (visit_handler _ _ _ Hcreate_in). simpl. unfold ForInStatement.
      rewrite (loop_right st n nodeobj r _ Hnode Hright), Hassertion. reflexivity.
    + unfold visit. rewrite (visit_handler _ _ _ Hcreate_of). simpl.
      unfold ForOfStatementOverride.
      rewrite (loop_right st n nodeobj r _ Hnode Hright), Hassertion.
      apply call_with_copy.
      * apply andb_true_iff in Hhost as [_ Hof']. exact Hof'.
      * apply (asForOfWithSequenceRight_spec st n nodeobj r rightobj); assumption.
Qed.

End CallsAndLoops.

Section CallsAndLoopsExamples.
Import NoExtraParens.



(** [for (; (b as T); ) {}]: the test alone is a type assertion. *)
Lemma C8_for_statement_single_clause_witness :
  exists copy st',
    ForStatement rules_per_kind isTypeAssertion_std (VRef 1%positive) (initial heap_for_test)
    = Some (tt, st')
    /\ invoked (initial heap_for_test) st' "ForStatement" (VRef copy)
    /\ addsCopy (initial heap_for_test) st' copy (<["test" := VNull]> for_test_node)
    /\ untouched (initial heap_for_test) st'.
Proof.
  refine (proj1 (C8_for_statement_single_clause
                   rules_per_kind isTypeAssertion_std (initial heap_for_test)
                   1%positive for_test_node _ _) "test" _).
  - vm_compute; reflexivity.
  - vm_compute; reflexivity.
  - right; left. repeat split; vm_compute; reflexivity.
Defined.

(** C8 as stated fails when two clauses are type assertions.  In
    [for ((a as T); (b as T); c) {}] the override returns after the init
    clause: the object handed to the base rule has [init] removed and
    still has the type assertion [(b as T)] as its test clause, which is
    therefore checked. *)
Lemma C8_two_clauses_counterexample :
  isTypeAssertionClause isTypeAssertion_std heap_for for_node "init" = true
  /\ isTypeAssertionClause isTypeAssertion_std heap_for for_node "test" = true
  /\ exists st' copy copyobj,
      ForStatement rules_per_kind isTypeAssertion_std (VRef 1%positive) (initial heap_for)
      = Some (tt, st')
      /\ calls st' = [("ForStatement", VRef copy)]
      /\ heap st' !! copy = Some copyobj
      /\ copyobj !! "init" = Some VNull
      /\ copyobj !! "test" = Some (VRef 3%positive)
      /\ isTypeAssertionClause isTypeAssertion_std (heap st') copyobj "test" = true.
Proof.
  split; [vm_compute; reflexivity |]. split; [vm_compute; reflexivity |].
  exists (mkState (<[6%positive := <["init" := VNull]> for_node]> heap_for)
                  [("ForStatement", VRef 6%positive)]),
    6%positive, (<["init" := VNull]> for_node).
  repeat split; vm_compute; reflexivity.
Qed.

(** [for (k in (o as T)) {}] on a host with the combined callback only. *)
Lemma C9_for_in_of_overrides_witness :
  create rules_combined !! combined = Some H_ForInOrOfStatement
  /\ exists copy st',
      visit rules_combined no_tokens isTypeAssertion_std isOpeningParenToken_std
            combined (VRef 1%positive) (initial heap_for_in) = Some (tt, st')
      /\ invoked (initial heap_for_in) st' combined (VRef copy)
      /\ addsCopyWithStandIn (initial heap_for_in) st' 2%positive copy
           (fun stand_in =>
              <["right" := VRef stand_in]> (<["type" := ForOfStatement]> for_in_node))
      /\ untouched (initial heap_for_in) st'.
Proof.
  assert (Hhost : hasRule rules_combined "ForInStatement"
                  && hasRule rules_combined "ForOfStatement" = false)
    by (vm_compute; reflexivity).
  assert (Hnode : heap (initial heap_for_in) !! 1%positive = Some for_in_node)
    by (vm_compute; reflexivity).
  assert (Hright : for_in_node !! "right" = Some (VRef 2%positive))
    by (vm_compute; reflexivity).
  assert (Hrightobj : heap (initial heap_for_in) !! 2%positive = Some as_node)
    by (vm_compute; reflexivity).
  assert (Hassertion : isTypeAssertion_std (heap (initial heap_for_in)) (VRef 2%positive)
                       = true)
    by (vm_compute; reflexivity).
  destruct (proj1 (C9_for_in_of_overrides
                     rules_combined no_tokens isTypeAssertion_std isOpeningParenToken_std
                     (initial heap_for_in) 1%positive for_in_node 2%positive as_node
                     Hnode Hright Hrightobj Hassertion) Hhost)
    as (Hcreate & _ & _ & Hvisit).
  split; [exact Hcreate |].
  apply Hvisit. vm_compute; reflexivity.
Defined.

(** C9 as stated fails in both host configurations.  On the older host,
    which has the combined callback only, the for-in
    [for (k in (o as T)) {}] is not skipped: the combined callback is
    invoked on a copy of kind [ForOfStatement] whose [right] is a
    stand-in of kind [SequenceExpression].  On the host with per-kind
    callbacks the same for-in is not substituted: it is skipped, nothing
    is invoked and nothing allocated. *)
Lemma C9_host_configurations_counterexample :
  (exists st' copy copyobj stand_in standobj,
      visit rules_combined no_tokens isTypeAssertion_std isOpeningParenToken_std
            combined (VRef 1%positive) (initial heap_for_in) = Some (tt, st')
      /\ calls st' = [(combined, VRef copy)]
      /\ heap st' !! copy = Some copyobj
      /\ copyobj !! "type" = Some ForOfStatement
      /\ copyobj !! "right" = Some (VRef stand_in)
      /\ heap st' !! stand_in = Some standobj
      /\ standobj !! "type" = Some SequenceExpression)
  /\ hasRule rules_combined "ForInStatement" = false
  /\ hasRule rules_combined "ForOfStatement" = false
  /\ visit rules_per_kind no_tokens isTypeAssertion_std isOpeningParenToken_std
           "ForInStatement" (VRef 1%positive) (initial heap_for_in)
     = Some (tt, initial heap_for_in)
  /\ hasRule rules_per_kind "ForInStatement" = true
  /\ hasRule rules_per_kind "ForOfStatement" = true.
Proof.
  split.
  - exists (mkState
              (<[5%positive := <["right" := VRef 6%positive]>
                                 (<["type" := ForOfStatement]> for_in_node)]>
                 (<[6%positive := <["type" := SequenceExpression]> as_node]> heap_for_in))
              [(combined, VRef 5%positive)]),
      5%positive,
      (<["right" := VRef 6%positive]> (<["type" := ForOfStatement]> for_in_node)),
      6%positive, (<["type" := SequenceExpression]> as_node).
    repeat split; vm_compute; reflexivity.
  - repeat split; vm_compute; reflexivity.
Qed.

End CallsAndLoopsExamples.

(** * Further properties *)

(** ** Neighbours in a token stream in source order *)

Section Neighbours.

Lemma find_app {A} (f : A -> bool) (l1 l2 : list A) :
  List.find f (l1 ++ l2) = match List.find f l1 with Some x => Some x | None => List.find f l2 end.
Proof. induction l1 as [| x l1 IH]; simpl; [reflexivity |]. destruct (f x); auto. Qed.

Lemma find_none_forall {A} (f : A -> bool) (l : list A) :
  (forall x, In x l -> f x = false) -> List.find f l = None.
Proof.
  induction l as [| x l IH]; intros H; simpl; [reflexivity |].
  rewrite (H x (or_introl eq_refl)). apply IH. intros y Hy. apply H. right. exact Hy.
Qed.

Lemma ordered_from_bounds i pos ts :
  ordered_from i pos ts = true ->
  forall x, In x ts -> pos <= tok_start x /\ tok_start x < tok_end x.
Proof.
  revert i pos. induction ts as [| t ts IH]; intros i pos H x Hx; [destruct Hx |].
  simpl in H. repeat (apply andb_true_iff in H as [H ?]).
  destruct Hx as [<- | Hx]; [lia |].
  destruct (IH _ _ H0 x Hx). lia.
Qed.

Lemma ordered_from_app i pos l1 x l2 :
  ordered_from i pos (l1 ++ x :: l2) = true ->
  (forall y, In y l1 -> tok_start y < tok_end y /\ tok_end y <= tok_start x)
  /\ tok_start x < tok_end x
  /\ (forall y, In y l2 -> tok_end x <= tok_start y /\ tok_start y < tok_end y).
Proof.
  revert i pos. induction l1 as [| t l1 IH]; intros i pos H; simpl in H.
  - repeat (apply andb_true_iff in H as [H ?]).
    split; [intros y [] |]. split; [lia |]. apply (ordered_from_bounds _ _ _ H0).
  - repeat (apply andb_true_iff in H as [H ?]).
    destruct (IH _ _ H0) as (Hpre & Hx & Hpost).
    split; [| split; assumption].
    intros y [<- | Hy]; [| apply Hpre; exact Hy].
    split; [lia |].
    destruct (ordered_from_bounds _ _ _ H0 x) as [Hb _]; [| lia].
    apply in_app_iff. right. left. reflexivity.
Qed.

(** In a stream in source order the token before a token and the token
    after it are its neighbours in the list. *)
Lemma token_neighbours sc pre p t post :
  wf_tokens sc = true ->
  tokens sc = pre ++ p :: t :: post ->
  getTokenBefore sc (tok_range t) anyToken = Some p
  /\ getTokenAfter sc (tok_range p) anyToken = Some t.
Proof.
  unfold wf_tokens. intros Hwf E. rewrite E in Hwf.
  destruct (ordered_from_app _ _ pre p (t :: post) Hwf) as (Hpre & Hp & Hpost).
  assert (Ht : tok_end p <= tok_start t /\ tok_start t < tok_end t)
    by (apply Hpost; left; reflexivity).
  replace (pre ++ p :: t :: post) with ((pre ++ [p]) ++ t :: post) in Hwf
    by (rewrite <- app_assoc; reflexivity).
  destruct (ordered_from_app _ _ (pre ++ [p]) t post Hwf) as (Hpre' & _ & Hpost').
  split.
  - unfold getTokenBefore. rewrite E.
    replace (rev (pre ++ p :: t :: post)) with (rev post ++ [t] ++ p :: rev pre).
    2:{ rewrite rev_app_distr. simpl. rewrite <- !app_assoc. reflexivity. }
    rewrite find_app, find_none_forall.
    2:{ intros x Hx. apply in_rev in Hx. destruct (Hpost' x Hx).
        unfold anyToken, tok_start in *. rewrite andb_true_r. apply Z.leb_gt. lia. }
    simpl. unfold anyToken. rewrite !andb_true_r.
    destruct (Z.leb_spec (tok_end t) (fst (tok_range t))); [unfold tok_start in *; lia |].
    destruct (Z.leb_spec (tok_end p) (fst (tok_range t))); [reflexivity |].
    unfold tok_start in *; lia.
  - unfold getTokenAfter. rewrite E, find_app, find_none_forall.
    2:{ intros x Hx. destruct (Hpre x Hx).
        unfold anyToken, tok_end in *. rewrite andb_true_r. apply Z.leb_gt. lia. }
    simpl. unfold anyToken. rewrite !andb_true_r.
    destruct (Z.leb_spec (snd (tok_range p)) (tok_start p)); [unfold tok_end in *; lia |].
    destruct (Z.leb_spec (snd (tok_range p)) (tok_start t)); [reflexivity |].
    unfold tok_end in *; lia.
Qed.
End Neighbours.

(** ** generator-star-spacing: options, reports and fixes *)

Section GeneratorExtras.
Import GeneratorStarSpacing.

(** X1. A shorthand string given for one bucket fixes both sides of that
    bucket, whatever the top-level [before]/[after] say; an object given for
    one bucket falls back, side by side, to the top-level value and then to
    the rule's default ([before: true], [after: false]); and the override of
    one bucket leaves the other buckets as they were. *)
Theorem policy_resolution :
  (forall b a n an m kind s,
      policyOf (modes (withOverride kind (OString s) (OObject b a n an m))) kind
      = optionDefinitions s)
  /\ (forall b a n an m kind ob oa x y z,
         policyOf (modes (withOverride kind (OObject ob oa x y z) (OObject b a n an m))) kind
         = mkPolicy (default (default true b) ob) (default (default false a) oa))
  /\ (forall option kind kind' override,
         kind <> kind' ->
         policyOf (modes (withOverride kind override option)) kind'
         = policyOf (modes option) kind').
Proof.
  split; [| split].
  - intros b a n an m kind s. destruct kind, s; reflexivity.
  - intros b a n an m kind ob oa x y z. destruct kind; reflexivity.
  - intros option kind kind' override Hne.
    destruct option as [| s | b a n an m]; try reflexivity.
    destruct kind, kind'; try congruence; reflexivity.
Qed.

Lemma policy_resolution_witness :
  policyOf (modes (withOverride Named (OString SNeither)
                                (OObject (Some false) (Some true) OUndefined OUndefined OUndefined)))
           Method
  = mkPolicy false true.
Proof.
  rewrite (proj2 (proj2 policy_resolution)
                 (OObject (Some false) (Some true) OUndefined OUndefined OUndefined)
                 Named Method (OString SNeither)); [reflexivity | discriminate].
Defined.

Lemma checkSpacing_cases modes kind side l r :
  checkSpacing modes kind side l r = []
  \/ exists rep, checkSpacing modes kind side l r = [rep]
                 /\ Js.truthy (gap l r) = negb (lookup_mode modes kind side)
                 /\ node rep = (if String.eqb (tok_value l) "*" then l else r)
                 /\ messageId rep
                    = (if lookup_mode modes kind side then "missing" else "unexpected")
                        +:+ capitalize (side_name side)
                 /\ fix_edit rep
                    = if lookup_mode modes kind side
                      then (if String.eqb (tok_value l) "*" then fixer.insertTextAfter l " "
                            else fixer.insertTextBefore r " ")
                      else fixer.removeRange (tok_end l, tok_start r).
Proof.
  unfold checkSpacing.
  destruct (Js.truthy (gap l r)) eqn:Hg, (lookup_mode modes kind side) eqn:Hp; simpl;
    try (left; reflexivity); right; eexists; (split; [reflexivity |]);
    destruct (String.eqb (tok_value l) "*"); repeat split; reflexivity.
Qed.

(** X2. [checkSpacing] reports at most one violation; its message id is
    one of the four keys of [meta.messages], [missing...] exactly when the
    policy requires a space and [...Before]/[...After] by the side checked;
    and it is reported only when the policy is the opposite of what the gap
    shows. *)
Theorem checkSpacing_message modes kind side l r rep :
  In rep (checkSpacing modes kind side l r) ->
  checkSpacing modes kind side l r = [rep]
  /\ In (messageId rep) messages
  /\ messageId rep
     = match lookup_mode modes kind side, side with
       | true, Before => "missingBefore"
       | true, After => "missingAfter"
       | false, Before => "unexpectedBefore"
       | false, After => "unexpectedAfter"
       end
  /\ lookup_mode modes kind side = negb (Js.truthy (gap l r)).
Proof.
  intros Hin. destruct (checkSpacing_cases modes kind side l r) as [E | (rep' & E & Hg & _ & Hm & _)].
  - rewrite E in Hin. destruct Hin.
  - rewrite E in Hin. destruct Hin as [<- | []].
    split; [exact E |]. rewrite Hm, Hg.
    destruct (lookup_mode modes kind side), side; simpl; tauto.
Qed.

Lemma checkSpacing_edit modes kind side l r rep :
  In rep (checkSpacing modes kind side l r) ->
  rangeStart (fix_edit rep) = tok_end l
  /\ rangeEnd (fix_edit rep) = tok_start r
  /\ replacementText (fix_edit rep) = (if lookup_mode modes kind side then " " else "").
Proof.
  intros Hin.
  destruct (checkSpacing_cases modes kind side l r) as [E | (rep' & E & Hg & _ & _ & Hf)];
    rewrite E in Hin; [destruct Hin |].
  destruct Hin as [<- | []].
  rewrite Hf. destruct (lookup_mode modes kind side); simpl in Hg.
  - apply negb_false_iff, Z.eqb_eq in Hg. unfold gap in Hg.
    destruct (String.eqb (tok_value l) "*"); simpl; unfold tok_start, tok_end in *;
      repeat split; lia.
  - repeat split.
Qed.

(** X3. The edit of every report of [checkSpacing] replaces exactly the
    gap between the two tokens, from the end of the left token to the start
    of the right one, by one space when the policy requires a space and by
    nothing when it forbids one (an insertion is only made into an empty
    gap); after the edit the gap agrees with the policy. *)
Theorem checkSpacing_fix_replaces_gap modes kind side l r rep :
  In rep (checkSpacing modes kind side l r) ->
  rangeStart (fix_edit rep) = tok_end l
  /\ rangeEnd (fix_edit rep) = tok_start r
  /\ replacementText (fix_edit rep) = (if lookup_mode modes kind side then " " else "")
  /\ Js.truthy (gapAfterEdit (gap l r) (fix_edit rep)) = lookup_mode modes kind side.
Proof.
  intros Hin. destruct (checkSpacing_edit modes kind side l r rep Hin) as (H1 & H2 & H3).
  repeat split; try assumption.
  unfold gapAfterEdit, gap. rewrite H1, H2, H3.
  replace (tok_start r - tok_end l - (tok_start r - tok_end l)) with 0 by lia.
  destruct (lookup_mode modes kind side); reflexivity.
Qed.

Lemma checkSpacing_nil modes kind side l r :
  0 <= gap l r ->
  (checkSpacing modes kind side l r = [] <-> (0 <? gap l r) = lookup_mode modes kind side).
Proof.
  intros Hg. pose proof (checkSpacing_reports modes kind side l r) as H.
  rewrite (truthy_pos _ Hg) in H.
  destruct (checkSpacing modes kind side l r) eqn:E.
  - split; [| reflexivity]. intros _.
    destruct (Bool.bool_dec (0 <? gap l r) (lookup_mode modes kind side)) as [e | ne];
      [exact e |]. apply H in ne. congruence.
  - split; [discriminate |]. intros e. exfalso.
    assert (Hne : r0 :: l0 <> []) by discriminate. apply H in Hne. congruence.
Qed.

Lemma checkSpacing_length modes kind side l r :
  (List.length (checkSpacing modes kind side l r) <= 1)%nat.
Proof. unfold checkSpacing. destruct (negb _); simpl; lia. Qed.

(** X4. For a generator whose star and both neighbouring tokens are
    found, [checkFunction] returns, with at most two reports, and with none
    exactly when the gap after the star shows a space as the policy of the
    function's bucket says for [after] and, unless the before-side check is
    skipped, the gap before the star does so for [before]. *)
Theorem checkFunction_clean_iff modes sc fn star prev next
        (Hgen : generator fn = true)
        (Hstar : getStarToken sc fn = Some star)
        (Hprev : getTokenBefore sc (tok_range star) anyToken = Some prev)
        (Hnext : getTokenAfter sc (tok_range star) anyToken = Some next) :
  exists reports,
    checkFunction modes sc fn = Some reports
    /\ (List.length reports <= 2)%nat
    /\ (reports = []
        <-> (beforeIsChecked sc fn star = true ->
             (0 <? gap prev star) = lookup_mode modes (kindOf fn) Before)
            /\ (0 <? gap star next) = lookup_mode modes (kindOf fn) After).
Proof.
  assert (Hgb : 0 <= gap prev star).
  { apply getTokenBefore_gap in Hprev. unfold gap, tok_start. lia. }
  assert (Hga : 0 <= gap star next).
  { apply getTokenAfter_gap in Hnext. unfold gap, tok_end. lia. }
  rewrite (checkFunction_generator modes sc fn star next Hgen Hstar Hnext).
  unfold beforeIsChecked.
  destruct (negb (Kind_eqb (kindOf fn) Method && starIsFirstOfParent sc fn star)).
  - rewrite Hprev. simpl. eexists. split; [reflexivity |]. split.
    + rewrite length_app.
      pose proof (checkSpacing_length modes (kindOf fn) Before prev star).
      pose proof (checkSpacing_length modes (kindOf fn) After star next). lia.
    + rewrite <- (checkSpacing_nil modes (kindOf fn) Before prev star Hgb).
      rewrite <- (checkSpacing_nil modes (kindOf fn) After star next Hga).
      split.
      * intros E. apply app_eq_nil in E as [E1 E2]. split; [intros _; exact E1 | exact E2].
      * intros [E1 E2]. rewrite (E1 eq_refl), E2. reflexivity.
  - simpl. eexists. split; [reflexivity |]. split.
    + pose proof (checkSpacing_length modes (kindOf fn) After star next). lia.
    + rewrite <- (checkSpacing_nil modes (kindOf fn) After star next Hga).
      split; [intros E; split; [discriminate | exact E] | intros [_ E]; exact E].
Qed.

(** X5. [checkFunction] throws exactly when the function is a generator
    and the star token is not found, or no token follows the star, or the
    before-side check is due and no token precedes the star; a function
    that is not a generator is never looked at. *)
Theorem checkFunction_throws_iff modes sc fn :
  checkFunction modes sc fn = None
  <-> generator fn = true
      /\ (getStarToken sc fn = None
          \/ exists star,
              getStarToken sc fn = Some star
              /\ (getTokenAfter sc (tok_range star) anyToken = None
                  \/ (beforeIsChecked sc fn star = true
                      /\ getTokenBefore sc (tok_range star) anyToken = None))).
Proof.
  unfold checkFunction, beforeIsChecked.
  destruct (generator fn); simpl.
  2:{ split; [discriminate | intros [H _]; discriminate]. }
  destruct (getStarToken sc fn) as [star|]; simpl.
  2:{ split; [intros _; split; [reflexivity | left; reflexivity] | reflexivity]. }
  assert (Hinv : forall P : Token -> Prop,
             (exists star', Some star = Some star' /\ P star') <-> P star).
  { intros P. split; [intros (s' & [= <-] & H); exact H | intros H; exists star; tauto]. }
  rewrite Hinv.
  destruct (negb (Kind_eqb (kindOf fn) Method && starIsFirstOfParent sc fn star)),
    (getTokenBefore sc (tok_range star) anyToken) as [prev|],
    (getTokenAfter sc (tok_range star) anyToken) as [next|]; simpl;
    split; try discriminate; try reflexivity;
    try (intros _; split; [reflexivity |]; right; tauto);
    intros [_ [H | [H | [H1 H2]]]]; discriminate.
Qed.

(** X6. When [checkFunction] reports on both sides of a star token (of
    non-zero width), the edit of the first report ends where the star
    starts and the edit of the second starts where the star ends: the two
    edits do not overlap and are already in source order. *)
Theorem checkFunction_fixes_disjoint modes sc fn star reports r1 r2
        (Hstar : getStarToken sc fn = Some star)
        (Hwide : tok_start star < tok_end star)
        (Hcheck : checkFunction modes sc fn = Some reports)
        (Hboth : reports = [r1; r2]) :
  rangeEnd (fix_edit r1) = tok_start star
  /\ rangeStart (fix_edit r2) = tok_end star
  /\ rangeEnd (fix_edit r1) < rangeStart (fix_edit r2)
  /\ sortEdits (fixes reports) = fixes reports.
Proof.
  subst reports. unfold checkFunction in Hcheck.
  destruct (generator fn); simpl in Hcheck; [| discriminate].
  rewrite Hstar in Hcheck. simpl in Hcheck.
  destruct (getTokenAfter sc (tok_range star) anyToken) as [next|];
    [| destruct (if negb _ then _ else _); discriminate].
  destruct (negb _).
  - destruct (getTokenBefore sc (tok_range star) anyToken) as [prev|] eqn:Hprev;
      [| discriminate].
    simpl in Hcheck. injection Hcheck as Hrs.
    pose proof (checkSpacing_length modes (kindOf fn) Before prev star) as L1.
    pose proof (checkSpacing_length modes (kindOf fn) After star next) as L2.
    destruct (checkSpacing modes (kindOf fn) Before prev star) as [| b [| ? ?]] eqn:Eb;
      simpl in L1; try lia;
      destruct (checkSpacing modes (kindOf fn) After star next) as [| a [| ? ?]] eqn:Ea;
      simpl in L2; try lia; simpl in Hrs; try discriminate.
    injection Hrs as <- <-.
    assert (Hb : In b (checkSpacing modes (kindOf fn) Before prev star))
      by (rewrite Eb; left; reflexivity).
    assert (Ha : In a (checkSpacing modes (kindOf fn) After star next))
      by (rewrite Ea; left; reflexivity).
    apply checkSpacing_edit in Hb as (Hb1 & Hb2 & _).
    apply checkSpacing_edit in Ha as (Ha1 & Ha2 & _).
    assert (Hpg : tok_end prev <= tok_start star).
    { apply getTokenBefore_gap in Hprev. unfold tok_start. exact Hprev. }
    repeat split; try assumption; try lia.
    unfold fixes, sortEdits. simpl. rewrite Hb1, Ha1.
    destruct (Z.ltb_spec (tok_end prev) (tok_end star)); [reflexivity | lia].
  - simpl in Hcheck. injection Hcheck as Hrs.
    pose proof (checkSpacing_length modes (kindOf fn) After star next) as L2.
    rewrite Hrs in L2. simpl in L2. lia.
Qed.
(** X7. In a token stream in source order in which the star has the
    neighbours [p] and [q], [checkFunction] compares the star with [p] (when
    the before-side check is due) and with [q], and with no other token. *)
Theorem checkFunction_checks_neighbours modes sc fn pre p star q post
        (Hwf : wf_tokens sc = true)
        (Htokens : tokens sc = pre ++ p :: star :: q :: post)
        (Hgen : generator fn = true)
        (Hstar : getStarToken sc fn = Some star) :
  checkFunction modes sc fn
  = Some ((if beforeIsChecked sc fn star
           then checkSpacing modes (kindOf fn) Before p star else [])
          ++ checkSpacing modes (kindOf fn) After star q).
Proof.
  destruct (token_neighbours sc pre p star (q :: post) Hwf Htokens) as [Hprev _].
  assert (Htokens' : tokens sc = (pre ++ [p]) ++ star :: q :: post)
    by (rewrite <- app_assoc; exact Htokens).
  destruct (token_neighbours sc (pre ++ [p]) star q post Hwf Htokens') as [_ Hnext].
  rewrite (checkFunction_generator modes sc fn star q Hgen Hstar Hnext).
  unfold beforeIsChecked. destruct (negb _); [rewrite Hprev |]; reflexivity.
Qed.

End GeneratorExtras.

(** ** arrow-spacing: reports and fixes *)

Section ArrowExtras.
Import ArrowSpacing.

Variable isArrowToken : Token -> bool.
Variable rule : Rule.
Variable sourceCode : SourceCode.

Lemma getTokens_gaps fn tokens :
  getTokens isArrowToken sourceCode fn = Some tokens ->
  0 <= c_before (countSpaces tokens) /\ 0 <= c_after (countSpaces tokens).
Proof.
  unfold getTokens. intros H.
  destruct (getTokenBefore sourceCode (body_range fn) isArrowToken) as [arrow|];
    [| discriminate]. simpl in H.
  destruct (getTokenBefore sourceCode (tok_range arrow) anyToken) as [b|] eqn:Hb;
    [| discriminate]. simpl in H.
  destruct (getTokenAfter sourceCode (tok_range arrow) anyToken) as [a|] eqn:Ha;
    [| discriminate]. simpl in H. injection H as <-.
  apply getTokenBefore_gap in Hb. apply getTokenAfter_gap in Ha.
  unfold countSpaces, tok_start, tok_end in *. simpl. lia.
Qed.

Lemma spacesBefore_cases tokens :
  let c := c_before (countSpaces tokens) in
  (spacesBefore rule tokens (countSpaces tokens) = []
   /\ (if before rule then c <> 0 else c <= 0))
  \/ (spacesBefore rule tokens (countSpaces tokens)
      = [ mkReport (t_before tokens)
                   (if before rule then "expectedBefore" else "unexpectedBefore")
                   (mkTextEdit (tok_end (t_before tokens)) (tok_start (t_arrow tokens))
                               (if before rule then " " else "")) ]
      /\ (if before rule then c = 0 else 0 < c)).
Proof.
  intros c. unfold spacesBefore. subst c. unfold countSpaces. simpl.
  destruct (before rule).
  - destruct (Z.eqb_spec (tok_start (t_arrow tokens) - tok_end (t_before tokens)) 0) as [e | n];
      [right | left; split; [reflexivity | exact n]].
    split; [| exact e]. unfold fixer.insertTextBefore, fixer.insertTextBeforeRange.
    fold (tok_start (t_arrow tokens)).
    replace (tok_start (t_arrow tokens)) with (tok_end (t_before tokens)) at 1 by lia.
    reflexivity.
  - destruct (Z.ltb_spec 0 (tok_start (t_arrow tokens) - tok_end (t_before tokens)));
      [right | left]; split; try reflexivity; lia.
Qed.

Lemma spacesAfter_cases tokens :
  let c := c_after (countSpaces tokens) in
  (spacesAfter rule tokens (countSpaces tokens) = []
   /\ (if after rule then c <> 0 else c <= 0))
  \/ (spacesAfter rule tokens (countSpaces tokens)
      = [ mkReport (t_after tokens)
                   (if after rule then "expectedAfter" else "unexpectedAfter")
                   (mkTextEdit (tok_end (t_arrow tokens)) (tok_start (t_after tokens))
                               (if after rule then " " else "")) ]
      /\ (if after rule then c = 0 else 0 < c)).
Proof.
  intros c. unfold spacesAfter. subst c. unfold countSpaces. simpl.
  destruct (after rule).
  - destruct (Z.eqb_spec (tok_start (t_after tokens) - tok_end (t_arrow tokens)) 0) as [e | n];
      [right | left; split; [reflexivity | exact n]].
    split; [| exact e]. unfold fixer.insertTextAfter, fixer.insertTextAfterRange.
    fold (tok_end (t_arrow tokens)).
    replace (tok_end (t_arrow tokens)) with (tok_start (t_after tokens)) at 2 by lia.
    reflexivity.
  - destruct (Z.ltb_spec 0 (tok_start (t_after tokens) - tok_end (t_arrow tokens)));
      [right | left]; split; try reflexivity; lia.
Qed.

Lemma spacesBefore_nil tokens :
  0 <= c_before (countSpaces tokens) ->
  (spacesBefore rule tokens (countSpaces tokens) = []
   <-> (0 <? c_before (countSpaces tokens)) = before rule).
Proof.
  intros Hc. destruct (spacesBefore_cases tokens) as [[E C] | [E C]]; rewrite E;
    destruct (before rule);
    destruct (Z.ltb_spec 0 (c_before (countSpaces tokens)));
    split; intros; try reflexivity; try discriminate; lia.
Qed.

Lemma spacesAfter_nil tokens :
  0 <= c_after (countSpaces tokens) ->
  (spacesAfter rule tokens (countSpaces tokens) = []
   <-> (0 <? c_after (countSpaces tokens)) = after rule).
Proof.
  intros Hc. destruct (spacesAfter_cases tokens) as [[E C] | [E C]]; rewrite E;
    destruct (after rule);
    destruct (Z.ltb_spec 0 (c_after (countSpaces tokens)));
    split; intros; try reflexivity; try discriminate; lia.
Qed.

Lemma spaces_length tokens :
  (List.length (spacesBefore rule tokens (countSpaces tokens)) <= 1
   /\ List.length (spacesAfter rule tokens (countSpaces tokens)) <= 1)%nat.
Proof.
  destruct (spacesBefore_cases tokens) as [[Eb _] | [Eb _]];
    destruct (spacesAfter_cases tokens) as [[Ea _] | [Ea _]];
    rewrite Eb, Ea; simpl; lia.
Qed.

(** X8. When the three tokens around the arrow are found, [spaces]
    returns, with at most two reports, and with none exactly when a space
    shows before the arrow as [before] says and after the arrow as [after]
    says. *)
Theorem spaces_clean_iff fn tokens
        (Htokens : getTokens isArrowToken sourceCode fn = Some tokens) :
  exists reports,
    spaces isArrowToken rule sourceCode fn = Some reports
    /\ (List.length reports <= 2)%nat
    /\ (reports = []
        <-> (0 <? c_before (countSpaces tokens)) = before rule
            /\ (0 <? c_after (countSpaces tokens)) = after rule).
Proof.
  destruct (getTokens_gaps fn tokens Htokens) as [Hb Ha].
  unfold spaces. rewrite Htokens. simpl. eexists. split; [reflexivity |]. split.
  - rewrite length_app. destruct (spaces_length tokens). lia.
  - rewrite <- (spacesBefore_nil tokens Hb), <- (spacesAfter_nil tokens Ha).
    split; [apply app_eq_nil | intros [-> ->]; reflexivity].
Qed.

(** X9. Every report of [spaces] carries one of the four keys of
    [meta.messages], [expected...] when the option asks for a space and
    [unexpected...] when it forbids one; its edit replaces exactly the gap
    on that side of the arrow by one space or by nothing, after which the
    gap agrees with the option. *)
Theorem spaces_report_anatomy fn tokens reports r
        (Htokens : getTokens isArrowToken sourceCode fn = Some tokens)
        (Hspaces : spaces isArrowToken rule sourceCode fn = Some reports)
        (Hin : In r reports) :
  In (messageId r) messages
  /\ ((messageId r = (if before rule then "expectedBefore" else "unexpectedBefore")
       /\ fix_edit r = mkTextEdit (tok_end (t_before tokens)) (tok_start (t_arrow tokens))
                                  (if before rule then " " else "")
       /\ Js.truthy (gapAfterEdit (c_before (countSpaces tokens)) (fix_edit r)) = before rule)
      \/ (messageId r = (if after rule then "expectedAfter" else "unexpectedAfter")
          /\ fix_edit r = mkTextEdit (tok_end (t_arrow tokens)) (tok_start (t_after tokens))
                                     (if after rule then " " else "")
          /\ Js.truthy (gapAfterEdit (c_after (countSpaces tokens)) (fix_edit r)) = after rule)).
Proof.
  unfold spaces in Hspaces. rewrite Htokens in Hspaces. simpl in Hspaces.
  injection Hspaces as <-. apply in_app_or in Hin as [Hin | Hin].
  - destruct (spacesBefore_cases tokens) as [[E _] | [E _]]; rewrite E in Hin;
      [destruct Hin | destruct Hin as [<- | []]].
    simpl. split; [destruct (before rule); simpl; tauto |]. left.
    repeat split. unfold gapAfterEdit, countSpaces. simpl.
    replace (tok_start (t_arrow tokens) - tok_end (t_before tokens)
             - (tok_start (t_arrow tokens) - tok_end (t_before tokens))) with 0 by lia.
    destruct (before rule); reflexivity.
  - destruct (spacesAfter_cases tokens) as [[E _] | [E _]]; rewrite E in Hin;
      [destruct Hin | destruct Hin as [<- | []]].
    simpl. split; [destruct (after rule); simpl; tauto |]. right.
    repeat split. unfold gapAfterEdit, countSpaces. simpl.
    replace (tok_start (t_after tokens) - tok_end (t_arrow tokens)
             - (tok_start (t_after tokens) - tok_end (t_arrow tokens))) with 0 by lia.
    destruct (after rule); reflexivity.
Qed.

(** X10. When [spaces] reports on both sides of an arrow token (of
    non-zero width), the first edit ends where the arrow starts and the
    second starts where the arrow ends: the two edits do not overlap and
    are already in source order. *)
Theorem spaces_fixes_disjoint fn tokens r1 r2
        (Htokens : getTokens isArrowToken sourceCode fn = Some tokens)
        (Hwide : tok_start (t_arrow tokens) < tok_end (t_arrow tokens))
        (Hspaces : spaces isArrowToken rule sourceCode fn = Some [r1; r2]) :
  rangeEnd (fix_edit r1) = tok_start (t_arrow tokens)
  /\ rangeStart (fix_edit r2) = tok_end (t_arrow tokens)
  /\ rangeEnd (fix_edit r1) < rangeStart (fix_edit r2)
  /\ sortEdits (fixes [r1; r2]) = fixes [r1; r2].
Proof.
  destruct (getTokens_gaps fn tokens Htokens) as [Hb Ha].
  unfold spaces in Hspaces. rewrite Htokens in Hspaces. simpl in Hspaces.
  injection Hspaces as Hrs.
  destruct (spacesBefore_cases tokens) as [[Eb _] | [Eb _]];
    destruct (spacesAfter_cases tokens) as [[Ea _] | [Ea _]];
    rewrite Eb, Ea in Hrs; simpl in Hrs; try discriminate.
  injection Hrs as <- <-. simpl.
  unfold countSpaces in Hb, Ha. simpl in Hb, Ha.
  repeat split; try lia.
  unfold sortEdits, fixes. simpl.
  destruct (Z.ltb_spec (tok_end (t_before tokens)) (tok_end (t_arrow tokens)));
    [reflexivity | lia].
Qed.

(** X11. In a token stream in source order in which the arrow found
    before the body has the neighbours [b] and [a], [getTokens] returns
    [b], the arrow and [a]: the spaces counted are those between the arrow
    and its immediate neighbours. *)
Theorem getTokens_neighbours fn pre b arrow a post
        (Hwf : wf_tokens sourceCode = true)
        (Htokens : tokens sourceCode = pre ++ b :: arrow :: a :: post)
        (Harrow : getTokenBefore sourceCode (body_range fn) isArrowToken = Some arrow) :
  getTokens isArrowToken sourceCode fn = Some (mkTokens b arrow a)
  /\ countSpaces (mkTokens b arrow a)
     = mkSpaces (tok_start arrow - tok_end b) (tok_start a - tok_end arrow).
Proof.
  destruct (token_neighbours sourceCode pre b arrow (a :: post) Hwf Htokens) as [Hprev _].
  assert (Htokens' : tokens sourceCode = (pre ++ [b]) ++ arrow :: a :: post)
    by (rewrite <- app_assoc; exact Htokens).
  destruct (token_neighbours sourceCode (pre ++ [b]) arrow a post Hwf Htokens') as [_ Hnext].
  unfold getTokens. rewrite Harrow. simpl. rewrite Hprev. simpl. rewrite Hnext.
  split; reflexivity.
Qed.

End ArrowExtras.


(** ** The spacing rules on [function* foo() {}] and [var f = (a)=>a;] *)

Section SpacingExtrasExamples.
Import GeneratorStarSpacing.

Lemma checkSpacing_message_witness :
  exists rep,
    checkSpacing (modes OUndefined) Named Before
                 (mkToken 0 "Keyword" "function" (0, 8)) (mkToken 1 "Punctuator" "*" (8, 9))
    = [rep]
    /\ messageId rep = "missingBefore".
Proof.
  eexists.
  destruct (checkSpacing_message (modes OUndefined) Named Before
              (mkToken 0 "Keyword" "function" (0, 8)) (mkToken 1 "Punctuator" "*" (8, 9))
              _ (or_introl eq_refl)) as (E & _ & M & _).
  split; [exact E | exact M].
Defined.

Lemma checkSpacing_fix_replaces_gap_witness :
  exists rep,
    In rep (checkSpacing (modes OUndefined) Named After
                         (mkToken 1 "Punctuator" "*" (8, 9))
                         (mkToken 2 "Identifier" "foo" (10, 13)))
    /\ rangeStart (fix_edit rep) = 9 /\ rangeEnd (fix_edit rep) = 10
    /\ replacementText (fix_edit rep) = "".
Proof.
  eexists. split; [left; reflexivity |].
  destruct (checkSpacing_fix_replaces_gap (modes OUndefined) Named After
              (mkToken 1 "Punctuator" "*" (8, 9)) (mkToken 2 "Identifier" "foo" (10, 13))
              _ (or_introl eq_refl)) as (H1 & H2 & H3 & _).
  split; [exact H1 | split; [exact H2 | exact H3]].
Defined.

Lemma checkFunction_clean_iff_witness :
  exists reports,
    checkFunction (modes OUndefined) src_space_then_star fn_space_then_star = Some reports
    /\ reports = [].
Proof.
  destruct (checkFunction_clean_iff (modes OUndefined) src_space_then_star fn_space_then_star
              (mkToken 1 "Punctuator" "*" (9, 10))
              (mkToken 0 "Keyword" "function" (0, 8))
              (mkToken 2 "Identifier" "foo" (10, 13))
              eq_refl eq_refl eq_refl eq_refl) as (reports & E & _ & Hiff).
  exists reports. split; [exact E |].
  apply Hiff. split; [intros _ |]; reflexivity.
Defined.

Lemma checkFunction_fixes_disjoint_witness :
  exists r1 r2,
    checkFunction (modes OUndefined) src_star_then_space fn_star_then_space = Some [r1; r2]
    /\ rangeEnd (fix_edit r1) = 8 /\ rangeStart (fix_edit r2) = 9.
Proof.
  eexists. eexists. split; [reflexivity |].
  destruct (checkFunction_fixes_disjoint (modes OUndefined) src_star_then_space
              fn_star_then_space (mkToken 1 "Punctuator" "*" (8, 9)) _ _ _
              eq_refl eq_refl eq_refl eq_refl) as (H1 & H2 & _).
  split; [exact H1 | exact H2].
Defined.

Lemma checkFunction_checks_neighbours_witness :
  wf_tokens src_star_then_space = true
  /\ checkFunction (modes OUndefined) src_star_then_space fn_star_then_space
     = Some (checkSpacing (modes OUndefined) Named Before
                          (mkToken 0 "Keyword" "function" (0, 8))
                          (mkToken 1 "Punctuator" "*" (8, 9))
             ++ checkSpacing (modes OUndefined) Named After
                             (mkToken 1 "Punctuator" "*" (8, 9))
                             (mkToken 2 "Identifier" "foo" (10, 13))).
Proof.
  split; [reflexivity |].
  exact (checkFunction_checks_neighbours (modes OUndefined) src_star_then_space
           fn_star_then_space [] (mkToken 0 "Keyword" "function" (0, 8))
           (mkToken 1 "Punctuator" "*" (8, 9)) (mkToken 2 "Identifier" "foo" (10, 13))
           _ eq_refl eq_refl eq_refl eq_refl).
Defined.

Lemma spaces_clean_iff_witness :
  exists reports,
    ArrowSpacing.spaces ArrowSpacing.isArrowToken_std (ArrowSpacing.rule None)
                        ArrowSpacing.src_tight_arrow ArrowSpacing.arrow_tight
    = Some reports
    /\ reports <> [].
Proof.
  destruct (spaces_clean_iff ArrowSpacing.isArrowToken_std (ArrowSpacing.rule None)
              ArrowSpacing.src_tight_arrow ArrowSpacing.arrow_tight
              (ArrowSpacing.mkTokens (mkToken 5 "Punctuator" ")" (10, 11))
                                     (mkToken 6 "Punctuator" "=>" (11, 13))
                                     (mkToken 7 "Identifier" "a" (13, 14)))
              eq_refl) as (reports & E & _ & Hiff).
  exists reports. split; [exact E |].
  intros Hnil. apply Hiff in Hnil as [Hb _]. discriminate Hb.
Defined.

Lemma spaces_report_anatomy_witness :
  exists r rest,
    ArrowSpacing.spaces ArrowSpacing.isArrowToken_std (ArrowSpacing.rule None)
                        ArrowSpacing.src_tight_arrow ArrowSpacing.arrow_tight
    = Some (r :: rest)
    /\ In (messageId r) ArrowSpacing.messages.
Proof.
  eexists. eexists. split; [reflexivity |].
  exact (proj1 (spaces_report_anatomy ArrowSpacing.isArrowToken_std (ArrowSpacing.rule None)
                  ArrowSpacing.src_tight_arrow ArrowSpacing.arrow_tight
                  (ArrowSpacing.mkTokens (mkToken 5 "Punctuator" ")" (10, 11))
                                         (mkToken 6 "Punctuator" "=>" (11, 13))
                                         (mkToken 7 "Identifier" "a" (13, 14)))
                  _ _ eq_refl eq_refl (or_introl eq_refl))).
Defined.

Lemma spaces_fixes_disjoint_witness :
  exists r1 r2,
    ArrowSpacing.spaces ArrowSpacing.isArrowToken_std (ArrowSpacing.rule None)
                        ArrowSpacing.src_tight_arrow ArrowSpacing.arrow_tight
    = Some [r1; r2]
    /\ rangeEnd (fix_edit r1) = 11 /\ rangeStart (fix_edit r2) = 13.
Proof.
  eexists. eexists. split; [reflexivity |].
  destruct (spaces_fixes_disjoint ArrowSpacing.isArrowToken_std (ArrowSpacing.rule None)
              ArrowSpacing.src_tight_arrow ArrowSpacing.arrow_tight
              (ArrowSpacing.mkTokens (mkToken 5 "Punctuator" ")" (10, 11))
                                     (mkToken 6 "Punctuator" "=>" (11, 13))
                                     (mkToken 7 "Identifier" "a" (13, 14)))
              _ _ eq_refl eq_refl eq_refl) as (H1 & H2 & _).
  split; [exact H1 | exact H2].
Defined.

Lemma getTokens_neighbours_witness :
  wf_tokens ArrowSpacing.src_tight_arrow = true
  /\ ArrowSpacing.getTokens ArrowSpacing.isArrowToken_std ArrowSpacing.src_tight_arrow
                            ArrowSpacing.arrow_tight
     = Some (ArrowSpacing.mkTokens (mkToken 5 "Punctuator" ")" (10, 11))
                                   (mkToken 6 "Punctuator" "=>" (11, 13))
                                   (mkToken 7 "Identifier" "a" (13, 14))).
Proof.
  split; [reflexivity |].
  exact (proj1 (getTokens_neighbours ArrowSpacing.isArrowToken_std
                  ArrowSpacing.src_tight_arrow ArrowSpacing.arrow_tight
                  [ mkToken 0 "Keyword" "var" (0, 3); mkToken 1 "Identifier" "f" (4, 5);
                    mkToken 2 "Punctuator" "=" (6, 7); mkToken 3 "Punctuator" "(" (8, 9);
                    mkToken 4 "Identifier" "a" (9, 10) ]
                  (mkToken 5 "Punctuator" ")" (10, 11))
                  (mkToken 6 "Punctuator" "=>" (11, 13))
                  (mkToken 7 "Identifier" "a" (13, 14))
                  [ mkToken 8 "Punctuator" ";" (14, 15) ]
                  eq_refl eq_refl eq_refl)).
Defined.

End SpacingExtrasExamples.

(** ** jsx-newline: the three regular expressions *)

Section Regex.
Import JsxNewline.

Lemma string_append_cons c s t : String c s +:+ t = String c (s +:+ t).
Proof. reflexivity. Qed.

Lemma string_append_empty t : "" +:+ t = t.
Proof. reflexivity. Qed.

Lemma lf_isWhiteSpace : isWhiteSpace lf = true.
Proof. reflexivity. Qed.

Lemma spaceThenNewline_spec s :
  spaceThenNewline s = true
  <-> exists mid post, s = mid +:+ String lf post /\ allWhiteSpace mid = true.
Proof.
  split.
  - induction s as [| c s IH]; simpl; [discriminate |].
    destruct (Ascii.eqb_spec c lf) as [-> | Hc].
    + intros _. exists "", s. split; reflexivity.
    + destruct (isWhiteSpace c) eqn:Hw; [| discriminate].
      intros H. destruct (IH H) as (mid & post & -> & Hmid).
      exists (String c mid), post. simpl. rewrite Hw, Hmid. split; reflexivity.
  - intros (mid & post & -> & Hmid). induction mid as [| c mid IH]; simpl.
    + reflexivity.
    + simpl in Hmid. apply andb_true_iff in Hmid as [Hw Hmid].
      destruct (Ascii.eqb c lf); [reflexivity |]. rewrite Hw. apply IH. exact Hmid.
Qed.

(** X12. [/\n\s*\n/] matches a string exactly when it holds two line
    feeds with nothing but white space between them. *)
Theorem hasBlankLine_spec s :
  hasBlankLine s = true
  <-> exists pre mid post,
      s = pre +:+ String lf (mid +:+ String lf post) /\ allWhiteSpace mid = true.
Proof.
  split.
  - induction s as [| c s IH]; simpl; [discriminate |].
    intros H. apply orb_true_iff in H as [H | H].
    + apply andb_true_iff in H as [Hc H]. apply Ascii.eqb_eq in Hc as ->.
      apply spaceThenNewline_spec in H as (mid & post & -> & Hmid).
      exists "", mid, post. split; [reflexivity | exact Hmid].
    + destruct (IH H) as (pre & mid & post & -> & Hmid).
      exists (String c pre), mid, post. split; [reflexivity | exact Hmid].
  - intros (pre & mid & post & -> & Hmid). induction pre as [| c pre IH]; simpl.
    + replace (spaceThenNewline (mid +:+ String lf post)) with true; [reflexivity |].
      symmetry. apply spaceThenNewline_spec. eauto.
    + rewrite IH. apply orb_true_r.
Qed.

Lemma skipWhiteSpace_spec s :
  exists ws, s = ws +:+ skipWhiteSpace s /\ allWhiteSpace ws = true
             /\ match skipWhiteSpace s with
                | String c _ => isWhiteSpace c = false
                | EmptyString => True
                end.
Proof.
  induction s as [| c s (ws & E & Hws & Hhead)]; simpl.
  - exists "". repeat split.
  - destruct (isWhiteSpace c) eqn:Hw.
    + exists (String c ws). simpl. rewrite Hw, Hws.
      split; [rewrite E at 1; reflexivity | split; [reflexivity | exact Hhead]].
    + exists "". repeat split. exact Hw.
Qed.

Lemma skipWhiteSpace_app ws t :
  allWhiteSpace ws = true ->
  match t with String c _ => isWhiteSpace c = false | EmptyString => True end ->
  skipWhiteSpace (ws +:+ t) = t.
Proof.
  intros Hws Ht. induction ws as [| c ws IH]; simpl.
  - destruct t as [| c t]; [reflexivity |]. simpl. rewrite Ht. reflexivity.
  - simpl in Hws. apply andb_true_iff in Hws as [Hc Hws]. rewrite Hc. apply IH. exact Hws.
Qed.

Lemma string_prefix_app p s : String.prefix p (p +:+ s) = true.
Proof.
  induction p as [| c p IH]; [destruct s; reflexivity |].
  rewrite string_append_cons. simpl.
  destruct (Ascii.ascii_dec c c); [exact IH | contradiction].
Qed.

Lemma string_prefix_inv p s : String.prefix p s = true -> exists rest, s = p +:+ rest.
Proof.
  revert s. induction p as [| c p IH]; intros s; simpl.
  - intros _. exists s. reflexivity.
  - destruct s as [| d s]; [discriminate |].
    simpl. destruct (Ascii.ascii_dec c d) as [E | E]; [subst d | discriminate].
    intros H. destruct (IH s H) as (rest & ->). exists rest. reflexivity.
Qed.


(** X13. [/^\s*{\/\*/] matches a string exactly when it is white space
    followed by the three characters of an opening brace and the start of a
    block comment. *)
Theorem startsWithBlockComment_spec s :
  startsWithBlockComment s = true
  <-> exists ws rest, s = ws +:+ "{/*" +:+ rest /\ allWhiteSpace ws = true.
Proof.
  unfold startsWithBlockComment. split.
  - intros H. destruct (skipWhiteSpace_spec s) as (ws & E & Hws & _).
    apply string_prefix_inv in H as (rest & Hrest). exists ws, rest.
    rewrite <- Hrest. split; assumption.
  - intros (ws & rest & -> & Hws).
    rewrite (skipWhiteSpace_app ws ("{/*" +:+ rest) Hws); [| reflexivity].
    apply string_prefix_app.
Qed.

Lemma string_prefix_cons c p d s :
  String.prefix (String c p) (String d s) = Ascii.eqb c d && String.prefix p s.
Proof.
  change (String.prefix (String c p) (String d s))
    with (if Ascii.ascii_dec c d then String.prefix p s else false).
  destruct (Ascii.ascii_dec c d) as [-> | Hne].
  - rewrite Ascii.eqb_refl. reflexivity.
  - apply Ascii.eqb_neq in Hne. rewrite Hne. reflexivity.
Qed.

Lemma string_prefix_empty s : String.prefix "" s = true.
Proof. destruct s; reflexivity. Qed.

Lemma dotStarThen_cons pat c s :
  dotStarThen pat (String c s)
  = String.prefix pat (String c s)
    || (if isLineTerminator c then false else dotStarThen pat s).
Proof. reflexivity. Qed.

Lemma dotStarThen_lf_hasLineFeed s :
  dotStarThen (String lf EmptyString) s = true -> hasLineFeed s = true.
Proof.
  induction s as [| c s IH]; [discriminate |].
  rewrite dotStarThen_cons, string_prefix_cons, string_prefix_empty, andb_true_r.
  change (hasLineFeed (String c s)) with (Ascii.eqb c lf || hasLineFeed s).
  rewrite (Ascii.eqb_sym c lf).
  destruct (Ascii.eqb lf c); [reflexivity |]. simpl.
  destruct (isLineTerminator c); [discriminate |].
  exact IH.
Qed.

Lemma hasBlankLine_cons c s : hasBlankLine s = true -> hasBlankLine (String c s) = true.
Proof. intros H. simpl. rewrite H. apply orb_true_r. Qed.

(** X14. The replacement of the [require] and [allowMultilines] fixes
    leaves a text without line feed as it is (the fix then changes
    nothing), turns a text with a line feed into one with a blank line, and
    never shortens the text. *)
Theorem doubleLastNewline_fix s :
  (hasLineFeed s = false -> doubleLastNewline s = s)
  /\ (hasLineFeed s = true -> hasBlankLine (doubleLastNewline s) = true)
  /\ (String.length s <= String.length (doubleLastNewline s))%nat.
Proof.
  induction s as [| c s (IH1 & IH2 & IH3)]; simpl.
  - repeat split; [discriminate | lia].
  - destruct (Ascii.eqb_spec c lf) as [-> | Hc]; simpl.
    + split; [discriminate |].
      destruct (dotStarThen (String lf "") s) eqn:Hd; simpl.
      * split; [| lia]. intros _. apply dotStarThen_lf_hasLineFeed in Hd.
        rewrite (IH2 Hd). apply orb_true_r.
      * split; [reflexivity | lia].
    + split; [intros H; rewrite (IH1 H); reflexivity |].
      split; [| lia]. intros H. rewrite (IH2 H). apply orb_true_r.
Qed.

Lemma dotStarThen_pair s :
  dotStarThen (String lf (String lf EmptyString)) s = true -> hasLineFeedPair s = true.
Proof.
  induction s as [| c s IH]; [discriminate |].
  rewrite dotStarThen_cons.
  change (hasLineFeedPair (String c s))
    with ((Ascii.eqb c lf
           && match s with String c' _ => Ascii.eqb c' lf | EmptyString => false end)
          || hasLineFeedPair s).
  intros H. apply orb_true_iff in H as [H | H].
  - destruct s as [| c' s']; [rewrite string_prefix_cons in H; simpl in H;
                              rewrite andb_false_r in H; discriminate |].
    rewrite !string_prefix_cons, string_prefix_empty, andb_true_r in H.
    apply andb_true_iff in H as [H1 H2].
    rewrite (Ascii.eqb_sym c lf), (Ascii.eqb_sym c' lf), H1, H2. reflexivity.
  - destruct (isLineTerminator c); [discriminate |].
    rewrite (IH H). apply orb_true_r.
Qed.

Lemma removeLastNewline_length s :
  (String.length (removeLastNewline s) <= String.length s)%nat.
Proof.
  assert (H : forall n s, (String.length s <= n)%nat ->
                          (String.length (removeLastNewline s) <= String.length s)%nat).
  { clear s. induction n as [| n IH]; intros s Hn.
    - destruct s; [simpl; lia | simpl in Hn; lia].
    - destruct s as [| c [| c' s'']]; [simpl; lia | simpl; lia |].
      change (removeLastNewline (String c (String c' s'')))
        with (if Ascii.eqb c lf && Ascii.eqb c' lf
                 && negb (dotStarThen (String lf (String lf EmptyString)) s'')
              then String lf (removeLastNewline s'')
              else String c (removeLastNewline (String c' s''))).
      simpl in Hn.
      destruct (_ && _ && _).
      + pose proof (IH s'' ltac:(lia)). simpl. lia.
      + pose proof (IH (String c' s'') ltac:(simpl; lia)). simpl in *. lia. }
  apply (H (String.length s)). lia.
Qed.

(** X15. The replacement of the [prevent] fix leaves a text without two
    line feeds in a row as it is (a blank line made of a line feed, white
    space and a line feed is not removed), and strictly shortens a text
    that has two in a row. *)
Theorem removeLastNewline_fix s :
  (hasLineFeedPair s = false -> removeLastNewline s = s)
  /\ (hasLineFeedPair s = true ->
      (String.length (removeLastNewline s) < String.length s)%nat).
Proof.
  induction s as [| c s (IH1 & IH2)]; [split; [reflexivity | discriminate] |].
  destruct s as [| c' s''].
  - split; [reflexivity |]. simpl. rewrite andb_false_r. discriminate.
  - change (removeLastNewline (String c (String c' s'')))
      with (if Ascii.eqb c lf && Ascii.eqb c' lf
               && negb (dotStarThen (String lf (String lf EmptyString)) s'')
            then String lf (removeLastNewline s'')
            else String c (removeLastNewline (String c' s''))).
    change (hasLineFeedPair (String c (String c' s'')))
      with ((Ascii.eqb c lf && Ascii.eqb c' lf) || hasLineFeedPair (String c' s'')).
    destruct (Ascii.eqb c lf && Ascii.eqb c' lf) eqn:Hpair; simpl orb.
    + split; [discriminate |]. intros _.
      destruct (dotStarThen (String lf (String lf EmptyString)) s'') eqn:Hd; simpl negb; simpl andb.
      * apply dotStarThen_pair in Hd.
        assert (Hp : hasLineFeedPair (String c' s'') = true).
        { simpl. rewrite Hd. apply orb_true_r. }
        pose proof (IH2 Hp). simpl in *. lia.
      * pose proof (removeLastNewline_length s''). simpl. lia.
    + simpl andb. split.
      * intros H. rewrite (IH1 H). reflexivity.
      * intros H. pose proof (IH2 H). simpl in *. lia.
Qed.
End Regex.



(** ** jsx-newline: one child, one parent, the set of parents *)

Section CheckChild.
Import JsxNewline.
Variable options0 : option Configuration.
Variable sourceCode : SourceCode.

Lemma checkChild_siblings elements index element first second :
  isElementKind element = true ->
  elements !! (index + 1)%nat = Some first ->
  elements !! (index + 2)%nat = Some second ->
  isTextKind first = true ->
  isBlockCommentInCurlyBraces sourceCode element = false ->
  checkChild options0 sourceCode elements index element
  = let raw := getText sourceCode (c_range first) in
    if multilineApplies options0 sourceCode elements index element then
      if hasBlankLine (c_value first) then []
      else [ mkReport second "allowMultilines"
                      (fixer.replaceTextRange (c_range first) (doubleLastNewline raw)) ]
    else if Bool.eqb (negb (hasBlankLine (c_value first))) (preventOf options0) then []
    else [ mkReport second (if preventOf options0 then "prevent" else "require")
             (fixer.replaceTextRange (c_range first)
                ((if preventOf options0 then removeLastNewline else doubleLastNewline) raw)) ].
Proof.
  intros Hkind H1 H2 Hfirst Hcomment.
  unfold checkChild, isElementKind, isTextKind, multilineApplies, allowMultilinesOf,
    preventOf in *.
  rewrite Hkind, H1, H2, Hfirst, Hcomment. simpl.
  destruct (_ && _); [| reflexivity].
  destruct (hasBlankLine (c_value first)); reflexivity.
Qed.



Lemma checkChild_length elements index element :
  (List.length (checkChild options0 sourceCode elements index element)
   <= if (index + 2 <? List.length elements)%nat then 1 else 0)%nat.
Proof.
  destruct (Nat.ltb_spec (index + 2) (List.length elements)) as [Hlt | Hge].
  - unfold checkChild.
    destruct (_ || _); [| simpl; lia].
    destruct (elements !! (index + 1)%nat); [| simpl; lia].
    destruct (elements !! (index + 2)%nat); [| simpl; lia].
    destruct (negb _); [simpl; lia |].
    destruct (isBlockCommentInCurlyBraces _ _); [simpl; lia |].
    destruct (_ && _).
    + destruct (negb _); simpl; lia.
    + destruct (Bool.eqb _ _); simpl; lia.
  - rewrite checkChild_short by lia. simpl. lia.
Qed.

Lemma imap_reports_length (elements l : list JSXChild) (k : nat) :
  (k + List.length l = List.length elements)%nat ->
  (List.length (List.concat (imap (fun i => checkChild options0 sourceCode elements (k + i)) l))
   <= List.length l - 2)%nat.
Proof.
  revert k. induction l as [| x l IH]; intros k Hk; simpl; [lia |].
  rewrite length_app.
  pose proof (checkChild_length elements (k + 0) x) as Hx.
  assert (Himap : imap ((fun i => checkChild options0 sourceCode elements (k + i)) ∘ S) l
                  = imap (fun i => checkChild options0 sourceCode elements (S k + i)) l).
  { apply imap_ext. intros i y _. simpl. f_equal. lia. }
  rewrite Himap. specialize (IH (S k) ltac:(simpl in *; lia)).
  simpl in Hk.
  destruct (Nat.ltb_spec (k + 0 + 2) (List.length elements)); lia.
Qed.

(** X18. A parent with [n] children produces at most [n - 2] reports. *)
Theorem checkParent_count parent :
  (List.length (checkParent options0 sourceCode parent) <= List.length (children parent) - 2)%nat.
Proof.
  unfold checkParent.
  apply (imap_reports_length (children parent) (children parent) 0). reflexivity.
Qed.
End CheckChild.

Section AddParent.
Import JsxNewline.

Lemma existsb_nid ps p :
  existsb (fun q => Nat.eqb (e_nid q) (e_nid p)) ps = true <-> In (e_nid p) (List.map e_nid ps).
Proof.
  rewrite existsb_exists, in_map_iff. split.
  - intros (q & Hq & E). apply Nat.eqb_eq in E. eauto.
  - intros (q & E & Hq). exists q. split; [exact Hq | apply Nat.eqb_eq; exact E].
Qed.

(** X19. Collecting parents behaves as insertion into a set: identities
    stay without duplicates, the new parent is in the collection, no
    parent is lost, the order of first visits is kept, and visiting a
    parent again changes nothing. *)
Theorem addParent_set ps p :
  List.NoDup (List.map e_nid ps) ->
  List.NoDup (List.map e_nid (addParent ps p))
  /\ In (e_nid p) (List.map e_nid (addParent ps p))
  /\ (forall q, In q ps -> In q (addParent ps p))
  /\ (addParent ps p = ps \/ addParent ps p = ps ++ [p])
  /\ addParent (addParent ps p) p = addParent ps p.
Proof.
  intros Hnd.
  destruct (existsb (fun q => Nat.eqb (e_nid q) (e_nid p)) ps) eqn:E.
  - assert (Hadd : addParent ps p = ps) by (unfold addParent; rewrite E; reflexivity).
    assert (Hin : In (e_nid p) (List.map e_nid ps)) by (apply existsb_nid; exact E).
    rewrite !Hadd. repeat split; try assumption; [auto | left; reflexivity].
  - assert (Hadd : addParent ps p = ps ++ [p]) by (unfold addParent; rewrite E; reflexivity).
    assert (Hnot : ~ In (e_nid p) (List.map e_nid ps)).
    { intros H. apply existsb_nid in H. congruence. }
    assert (Hin : In (e_nid p) (List.map e_nid (ps ++ [p]))).
    { rewrite map_app, in_app_iff. right. left. reflexivity. }
    rewrite !Hadd.
    split; [| split; [exact Hin | split; [| split]]].
    + rewrite map_app. simpl. apply NoDup_ListNoDup, NoDup_app.
      split; [apply NoDup_ListNoDup; exact Hnd |].
      split; [| apply NoDup_singleton].
      intros x Hx Hx'. apply list_elem_of_In in Hx. apply list_elem_of_singleton in Hx' as ->.
      contradiction.
    + intros q Hq. apply in_app_iff. left. exact Hq.
    + right. reflexivity.
    + unfold addParent.
      replace (existsb (fun q => Nat.eqb (e_nid q) (e_nid p)) (ps ++ [p])) with true;
        [reflexivity |].
      symmetry. apply existsb_nid. exact Hin.
Qed.
End AddParent.

(** ** jsx-newline on [<div><a/>], a line feed, [<b/></div>] *)

Section JsxNewlineExtrasExamples.
Import JsxNewline.



Lemma addParent_set_witness :
  addParent (addParent [div_two_children] (mkElement 7 [])) div_two_children
  = [div_two_children; mkElement 7 []]
  /\ List.NoDup (List.map e_nid (addParent [div_two_children] (mkElement 7 []))).
Proof.
  split; [reflexivity |].
  apply (addParent_set [div_two_children] (mkElement 7 [])).
  constructor; [intros [] | constructor].
Defined.

End JsxNewlineExtrasExamples.

(** ** no-extra-parens: what no handler does *)

Section Safety.
Import NoExtraParens.
Variable rules : gset string.
Variable sourceCode : SourceCode.
Variable isTypeAssertion : gmap loc (gmap string value) -> value -> bool.
Variable isOpeningParenToken : Token -> bool.

Lemma safe_ret {A} (a : A) : safe (ret a).
Proof. intros st a' st' [= <- <-]. split; reflexivity. Qed.

Lemma safe_bind {A B} (m : M A) (f : A -> M B) :
  safe m -> (forall a, safe (f a)) -> safe (bind m f).
Proof.
  intros Hm Hf st b st' H. unfold bind in H.
  destruct (m st) as [[a st1] |] eqn:E; [| discriminate].
  destruct (Hm _ _ _ E) as [H1 C1]. destruct (Hf a _ _ _ H) as [H2 C2].
  split; [etransitivity; eassumption | congruence].
Qed.

Lemma safe_getProp v key : safe (getProp v key).
Proof.
  intros st a st' H. unfold getProp in H.
  destruct v; try discriminate; injection H as <- <-; split; reflexivity.
Qed.

Lemma safe_getPropOpt v key : safe (getPropOpt v key).
Proof. destruct v; simpl; try apply safe_ret; apply safe_getProp. Qed.

Lemma safe_getIndex v i : safe (getIndex v i).
Proof. destruct v; simpl; try apply safe_ret; apply safe_getProp. Qed.

Lemma safe_isTA v : safe (isTA isTypeAssertion v).
Proof. intros st a st' [= <- <-]. split; reflexivity. Qed.

Lemma safe_throw {A} : safe (@throw A).
Proof. intros st a st' H. discriminate. Qed.

Lemma safe_rangeOf v : safe (rangeOf v).
Proof.
  unfold rangeOf. apply safe_bind; [apply safe_getProp |].
  intros r. destruct r as [| | | | | | [| [] [| [] [| ? ?]]]];
    try apply safe_throw. apply safe_ret.
Qed.

Lemma safe_parenTokensDiffer c a :
  safe (parenTokensDiffer sourceCode isOpeningParenToken c a).
Proof.
  unfold parenTokensDiffer. apply safe_bind; [apply safe_rangeOf |]. intros r1.
  apply safe_bind; [apply safe_rangeOf |]. intros r2. apply safe_ret.
Qed.

Lemma alter_fresh_subseteq (h0 h : gmap loc (gmap string value)) l f :
  h0 !! l = None -> h0 ⊆ h -> h0 ⊆ alter f l h.
Proof.
  intros Hl Hsub. apply map_subseteq_spec. intros k o Hk.
  rewrite lookup_alter_ne by congruence.
  eapply lookup_weaken; eassumption.
Qed.

Lemma defineFields_safe h0 l fields :
  h0 !! l = None -> safeFields fields ->
  forall st u st',
    h0 ⊆ heap st -> defineFields (VRef l) fields st = Some (u, st') ->
    h0 ⊆ heap st' /\ calls st' = calls st.
Proof.
  intros Hl Hfields. induction Hfields as [| [key m] fields Hm _ IH]; intros st u st' Hsub H.
  - injection H as <- <-. split; [exact Hsub | reflexivity].
  - simpl in H. unfold bind in H.
    destruct (m st) as [[v st1] |] eqn:Em; [| discriminate].
    destruct (Hm _ _ _ Em) as [H1 C1]. simpl in H.
    assert (Hsub1 : h0 ⊆ heap (mkState (alter (fun o => <[key := v]> o) l (heap st1))
                                       (calls st1))).
    { simpl. apply alter_fresh_subseteq; [exact Hl | etransitivity; eassumption]. }
    destruct (IH _ _ _ Hsub1 H) as [H2 C2].
    split; [exact H2 |]. rewrite C2. simpl. exact C1.
Qed.

Lemma safe_objectLiteral spread fields :
  safeFields fields -> safe (objectLiteral spread fields).
Proof.
  intros Hfields st a st' H. unfold objectLiteral, bind, getHeap, alloc in H. simpl in H.
  set (l := fresh (dom (heap st))) in *.
  assert (Hl : heap st !! l = None) by apply fresh_lookup.
  destruct (defineFields (VRef l) fields _) as [[u st1] |] eqn:E; [| discriminate].
  injection H as <- <-.
  apply (defineFields_safe (heap st) l fields Hl Hfields) in E.
  - exact E.
  - simpl. apply insert_subseteq. exact Hl.
Qed.

Lemma safeFields_cons key m fields :
  safe m -> safeFields fields -> safeFields ((key, m) :: fields).
Proof. intros Hm Hf. unfold safeFields. constructor; [exact Hm | exact Hf]. Qed.

Lemma safeFields_nil : safeFields [].
Proof. unfold safeFields. constructor. Qed.

Lemma safe_asSequence child : safe (asSequence child).
Proof.
  apply safe_objectLiteral, safeFields_cons; [apply safe_ret | apply safeFields_nil].
Qed.

Lemma safe_withSequenceAt node key : safe (withSequenceAt node key).
Proof.
  apply safe_objectLiteral, safeFields_cons; [| apply safeFields_nil].
  apply safe_bind; [apply safe_getProp | intros; apply safe_asSequence].
Qed.

Lemma safe_withNullAt node key : safe (withNullAt node key).
Proof.
  apply safe_objectLiteral, safeFields_cons; [apply safe_ret | apply safeFields_nil].
Qed.

Lemma safe_asForOf node : safe (asForOfWithSequenceRight node).
Proof.
  apply safe_objectLiteral, safeFields_cons; [apply safe_ret |].
  apply safeFields_cons; [| apply safeFields_nil].
  apply safe_bind; [apply safe_getProp | intros; apply safe_asSequence].
Qed.

Lemma safe_argumentsLiteral node arguments :
  safe (objectLiteral node
          [("arguments",
            bind (getIndex arguments 0)
                 (fun argument0 => bind (asSequence argument0)
                                        (fun stand_in => ret (VArr [stand_in]))))]).
Proof.
  apply safe_objectLiteral, safeFields_cons; [| apply safeFields_nil].
  apply safe_bind; [apply safe_getIndex | intros a0].
  apply safe_bind; [apply safe_asSequence | intros; apply safe_ret].
Qed.

Lemma safe_presentTypeAssertion node key :
  safe (presentTypeAssertion isTypeAssertion node key).
Proof.
  unfold presentTypeAssertion. apply safe_bind; [apply safe_getProp |].
  intros child. destruct (truthy child); [apply safe_isTA | apply safe_ret].
Qed.

Lemma safe_typeArgumentParens callee arguments len :
  safe (match len with
        | VNum 1 =>
            bind (getIndex arguments 0)
                 (fun argument0 =>
                    parenTokensDiffer sourceCode isOpeningParenToken callee argument0)
        | _ => ret false
        end).
Proof.
  destruct len as [| | | n | | |]; try apply safe_ret.
  destruct n as [| p | p]; try apply safe_ret.
  destruct p; try apply safe_ret.
  apply safe_bind; [apply safe_getIndex | intros; apply safe_parenTokensDiffer].
Qed.

Lemma delegating_ret key : delegating rules key (ret tt).
Proof. intros st u st' [= <- <-]. split; [reflexivity | left; reflexivity]. Qed.

Lemma delegating_callRule key arg : delegating rules key (callRule rules key arg).
Proof.
  intros st u st' H. unfold callRule in H.
  destruct (hasRule rules key) eqn:E; [| discriminate]. injection H as <- <-.
  split; [reflexivity |]. right. exists arg. split; reflexivity.
Qed.

Lemma delegating_bind {A} key (m : M A) (f : A -> M unit) :
  safe m -> (forall a, delegating rules key (f a)) -> delegating rules key (bind m f).
Proof.
  intros Hm Hf st u st' H. unfold bind in H.
  destruct (m st) as [[a st1] |] eqn:E; [| discriminate].
  destruct (Hm _ _ _ E) as [H1 C1]. destruct (Hf a _ _ _ H) as [H2 C2].
  split; [etransitivity; eassumption |]. rewrite <- C1. exact C2.
Qed.

Lemma delegating_if key (b : bool) (m1 m2 : M unit) :
  delegating rules key m1 -> delegating rules key m2 ->
  delegating rules key (if b then m1 else m2).
Proof. destruct b; auto. Qed.

#[local] Create HintDb delegate.
#[local] Hint Resolve safe_ret safe_getProp safe_getPropOpt safe_getIndex safe_isTA safe_rangeOf
     safe_parenTokensDiffer safe_asSequence safe_withSequenceAt safe_withNullAt safe_asForOf
     safe_presentTypeAssertion safe_argumentsLiteral safe_typeArgumentParens delegating_ret delegating_callRule
     : delegate.

Ltac delegate :=
  repeat first
    [ apply delegating_ret
    | apply delegating_callRule
    | apply delegating_if
    | apply delegating_bind; [solve [auto with delegate] | intros ?]
    | match goal with
      | |- delegating _ _ (match ?v with _ => _ end) => destruct v
      end ].

Lemma runHandler_delegating h node :
  delegating rules (delegateKey h)
             (runHandler rules sourceCode isTypeAssertion isOpeningParenToken h node).
Proof.
  destruct h; simpl;
    unfold ArrowFunctionExpression, AwaitExpression, binaryExp, callExp, classOverride,
      ConditionalExpression, ForStatement, ForStatementInitExit, MemberExpression,
      SpreadElement, unlessTypeAssertion, unaryUpdateExpression, ForInStatement,
      ForOfStatementOverride, ForInOrOfStatement;
    delegate.
Qed.

(** X20. Whatever the node, a handler of the rule that returns has
    written to no object that existed before (it only adds objects) and has
    invoked at most one callback of the base rule, once: the one registered
    under the handler's own key, which the base rule then has. *)
Theorem runHandler_delegates h node st u st' :
  runHandler rules sourceCode isTypeAssertion isOpeningParenToken h node st = Some (u, st') ->
  untouched st st'
  /\ (calls st' = calls st
      \/ exists arg, invoked st st' (delegateKey h) arg
                     /\ hasRule rules (delegateKey h) = true).
Proof.
  intros H. destruct (runHandler_delegating h node st u st' H) as [Hsub Hcalls].
  split; [| exact Hcalls].
  intros l o Hl. eapply lookup_weaken; eassumption.
Qed.

Lemma runs_ret {A} (a : A) : runs (ret a).
Proof. intros st. exists a, st. reflexivity. Qed.

Lemma runs_bind {A B} (m : M A) (f : A -> M B) :
  runs m -> (forall a, runs (f a)) -> runs (bind m f).
Proof.
  intros Hm Hf st. destruct (Hm st) as (a & st1 & E). destruct (Hf a st1) as (b & st2 & E2).
  exists b, st2. unfold bind. rewrite E. exact E2.
Qed.

Lemma runs_getProp_ref l key : runs (getProp (VRef l) key).
Proof. intros st. eexists _, st. reflexivity. Qed.

Lemma runs_getPropOpt v key : runs (getPropOpt v key).
Proof.
  destruct v; simpl; try apply runs_ret; intros st; eexists _, st; reflexivity.
Qed.

Lemma runs_isTA v : runs (isTA isTypeAssertion v).
Proof. intros st. eexists _, st. reflexivity. Qed.

Lemma runs_callRule key arg : hasRule rules key = true -> runs (callRule rules key arg).
Proof. intros H st. unfold callRule. rewrite H. eexists _, _. reflexivity. Qed.

Lemma runs_defineFields l fields : runFields fields -> runs (defineFields (VRef l) fields).
Proof.
  intros Hf. induction Hf as [| [key m] fields Hm _ IH]; [apply runs_ret |].
  simpl. apply runs_bind; [exact Hm | intros v].
  apply runs_bind; [| intros _; exact IH].
  intros st. eexists _, _. reflexivity.
Qed.

Lemma runs_objectLiteral spread fields : runFields fields -> runs (objectLiteral spread fields).
Proof.
  intros Hf st. unfold objectLiteral, bind at 1 2, getHeap, alloc. simpl.
  destruct (runs_defineFields (fresh (dom (heap st))) fields Hf
              (mkState (<[fresh (dom (heap st)) := ownProps (heap st) spread]> (heap st))
                       (calls st))) as (a & st' & E).
  unfold bind. rewrite E. eexists _, _. reflexivity.
Qed.

Lemma runFields_cons key m fields :
  runs m -> runFields fields -> runFields ((key, m) :: fields).
Proof. intros Hm Hf. unfold runFields. constructor; [exact Hm | exact Hf]. Qed.

Lemma runFields_nil : runFields [].
Proof. unfold runFields. constructor. Qed.

Lemma runs_asSequence child : runs (asSequence child).
Proof. apply runs_objectLiteral, runFields_cons; [apply runs_ret | apply runFields_nil]. Qed.

Lemma runs_withSequenceAt l key : runs (withSequenceAt (VRef l) key).
Proof.
  apply runs_objectLiteral, runFields_cons; [| apply runFields_nil].
  apply runs_bind; [apply runs_getProp_ref | intros; apply runs_asSequence].
Qed.

Lemma runs_withNullAt node key : runs (withNullAt node key).
Proof. apply runs_objectLiteral, runFields_cons; [apply runs_ret | apply runFields_nil]. Qed.

Lemma runs_asForOf l : runs (asForOfWithSequenceRight (VRef l)).
Proof.
  apply runs_objectLiteral, runFields_cons; [apply runs_ret |].
  apply runFields_cons; [| apply runFields_nil].
  apply runs_bind; [apply runs_getProp_ref | intros; apply runs_asSequence].
Qed.

Lemma runs_presentTypeAssertion l key :
  runs (presentTypeAssertion isTypeAssertion (VRef l) key).
Proof.
  unfold presentTypeAssertion. apply runs_bind; [apply runs_getProp_ref |].
  intros child. destruct (truthy child); [apply runs_isTA | apply runs_ret].
Qed.

Lemma runs_if {A} (b : bool) (m1 m2 : M A) : runs m1 -> runs m2 -> runs (if b then m1 else m2).
Proof. destruct b; auto. Qed.

#[local] Hint Resolve runs_ret runs_getProp_ref runs_getPropOpt runs_isTA runs_callRule
     runs_asSequence runs_withSequenceAt runs_withNullAt runs_asForOf
     runs_presentTypeAssertion : delegate.

Ltac run_all :=
  repeat first
    [ apply runs_ret
    | apply runs_callRule; assumption
    | apply runs_if
    | apply runs_bind; [solve [auto with delegate] | intros ?] ].

(** X21. On a node that is an object, every handler but the one of
    calls returns (throws no error) as soon as the base rule has the
    callback the handler forwards to: a missing operand is read as
    [undefined] and never dereferenced. *)
Theorem runHandler_runs h l :
  hasRule rules (delegateKey h) = true ->
  h <> H_callExp ->
  runs (runHandler rules sourceCode isTypeAssertion isOpeningParenToken h (VRef l)).
Proof.
  intros Hrule Hcall.
  destruct h; simpl in *; try congruence;
    unfold ArrowFunctionExpression, AwaitExpression, binaryExp, classOverride,
      ConditionalExpression, ForStatement, ForStatementInitExit, MemberExpression,
      SpreadElement, unlessTypeAssertion, unaryUpdateExpression, ForInStatement,
      ForOfStatementOverride, ForInOrOfStatement;
    run_all.
Qed.
End Safety.

(** ** no-extra-parens: what each handler hands the base rule *)

Section Behaviour.
Import NoExtraParens.
Variable rules : gset string.
Variable sourceCode : SourceCode.
Variable isTypeAssertion : gmap loc (gmap string value) -> value -> bool.
Variable isOpeningParenToken : Token -> bool.

Local Abbreviation callExp' := (callExp rules sourceCode isTypeAssertion isOpeningParenToken).

Lemma operand_TA st n nodeobj key (k : bool -> M unit) :
  heap st !! n = Some nodeobj ->
  bind (getProp (VRef n) key) (fun child => bind (isTA isTypeAssertion child) k) st
  = k (isTypeAssertion (heap st) (default VUndefined (nodeobj !! key))) st.
Proof.
  intros Hn. rewrite (bind_Some _ _ _ _ _ (getProp_ref st n nodeobj key Hn)). reflexivity.
Qed.

Lemma operand_ref st n nodeobj key c (k : bool -> M unit) :
  heap st !! n = Some nodeobj -> nodeobj !! key = Some (VRef c) ->
  bind (getProp (VRef n) key) (fun child => bind (isTA isTypeAssertion child) k) st
  = k (isTypeAssertion (heap st) (VRef c)) st.
Proof.
  intros Hn Hc. rewrite (operand_TA st n nodeobj key k Hn), Hc. reflexivity.
Qed.


Lemma hands_stand_in (handler : value -> M unit) ruleKey key st n nodeobj c childobj :
  heap st !! n = Some nodeobj -> nodeobj !! key = Some (VRef c) ->
  heap st !! c = Some childobj -> hasRule rules ruleKey = true ->
  handler (VRef n) st
  = bind (withSequenceAt (VRef n) key) (fun arg => callRule rules ruleKey arg) st ->
  handsStandIn handler ruleKey key st n c.
Proof.
  intros Hn Hkey Hc Hrule E.
  destruct (call_with_copy rules (withSequenceAt (VRef n) key) ruleKey st c _ Hrule
              (withSequenceAt_spec st n key nodeobj c childobj Hn Hkey Hc))
    as (copy & st' & Hrun & Hinv & Hadds & Hun).
  exists nodeobj, copy, st'. rewrite E. repeat split; assumption.
Qed.

(** X23. When the operand of an [await], a member access, a unary or
    update expression or the callee of a call is a type assertion, the
    base rule is handed a copy of the node in which that operand is
    replaced by a stand-in of kind [SequenceExpression]; the node and the
    operand are not written to. *)
Theorem single_operand_stand_in st n nodeobj c childobj key
        (Hnode : heap st !! n = Some nodeobj)
        (Hchild : nodeobj !! key = Some (VRef c))
        (Hchildobj : heap st !! c = Some childobj)
        (Hassertion : isTypeAssertion (heap st) (VRef c) = true) :
  (key = "argument" -> hasRule rules "AwaitExpression" = true ->
   handsStandIn (AwaitExpression rules isTypeAssertion) "AwaitExpression" key st n c)
  /\ (key = "object" -> hasRule rules "MemberExpression" = true ->
      handsStandIn (MemberExpression rules isTypeAssertion) "MemberExpression" key st n c)
  /\ (key = "argument" -> hasRule rules "UnaryExpression" = true ->
      handsStandIn (unaryUpdateExpression rules isTypeAssertion) "UnaryExpression" key st n c)
  /\ (key = "callee" -> hasRule rules "CallExpression" = true ->
      handsStandIn callExp' "CallExpression" key st n c).
Proof.
  repeat split; intros -> Hrule;
    apply (hands_stand_in _ _ _ st n nodeobj c childobj Hnode Hchild Hchildobj Hrule).
  - unfold AwaitExpression. rewrite (operand_ref st n nodeobj "argument" c _ Hnode Hchild).
    rewrite Hassertion. reflexivity.
  - unfold MemberExpression. rewrite (operand_ref st n nodeobj "object" c _ Hnode Hchild).
    rewrite Hassertion. reflexivity.
  - unfold unaryUpdateExpression.
    rewrite (operand_ref st n nodeobj "argument" c _ Hnode Hchild).
    rewrite Hassertion. reflexivity.
  - unfold callExp.
    rewrite (bind_Some _ _ _ _ _ (getProp_ref st n nodeobj "callee" Hnode)), Hchild.
    change (default VUndefined (Some (VRef c))) with (VRef c).
    rewrite (bind_Some _ _ _ _ _ (isTA_eq isTypeAssertion (VRef c) st)), Hassertion.
    reflexivity.
Qed.

(** X24. Of the test, the consequent and the alternate of a conditional
    expression, only the first that is a type assertion is replaced by a
    stand-in in the copy handed to the base rule; when none is, the node
    itself is handed over. *)
Theorem conditional_first_assertion st n nodeobj (Hnode : heap st !! n = Some nodeobj)
        (Hrule : hasRule rules "ConditionalExpression" = true) :
  let operand key := default VUndefined (nodeobj !! key) in
  let isTA v := isTypeAssertion (heap st) v in
  let handler := ConditionalExpression rules isTypeAssertion in
  (forall c childobj,
      operand "test" = VRef c -> heap st !! c = Some childobj -> isTA (operand "test") = true ->
      handsStandIn handler "ConditionalExpression" "test" st n c)
  /\ (forall c childobj,
         operand "consequent" = VRef c -> heap st !! c = Some childobj ->
         isTA (operand "test") = false -> isTA (operand "consequent") = true ->
         handsStandIn handler "ConditionalExpression" "consequent" st n c)
  /\ (forall c childobj,
         operand "alternate" = VRef c -> heap st !! c = Some childobj ->
         isTA (operand "test") = false -> isTA (operand "consequent") = false ->
         isTA (operand "alternate") = true ->
         handsStandIn handler "ConditionalExpression" "alternate" st n c)
  /\ (isTA (operand "test") = false -> isTA (operand "consequent") = false ->
      isTA (operand "alternate") = false ->
      handler (VRef n) st = Some (tt, forwarded st "ConditionalExpression" n)).
Proof.
  intros operand isTA' handler.
  assert (Hkey : forall key c, operand key = VRef c -> nodeobj !! key = Some (VRef c)).
  { intros key c. unfold operand. destruct (nodeobj !! key); simpl; congruence. }
  assert (Hrun : handler (VRef n) st
                 = (if isTA' (operand "test")
                    then bind (withSequenceAt (VRef n) "test")
                              (fun arg => callRule rules "ConditionalExpression" arg)
                    else if isTA' (operand "consequent")
                    then bind (withSequenceAt (VRef n) "consequent")
                              (fun arg => callRule rules "ConditionalExpression" arg)
                    else if isTA' (operand "alternate")
                    then bind (withSequenceAt (VRef n) "alternate")
                              (fun arg => callRule rules "ConditionalExpression" arg)
                    else callRule rules "ConditionalExpression" (VRef n)) st).
  { unfold handler, ConditionalExpression.
    rewrite (operand_TA st n nodeobj "test" _ Hnode).
    fold (operand "test"). fold (isTA' (operand "test")).
    destruct (isTA' (operand "test")); [reflexivity |].
    rewrite (operand_TA st n nodeobj "consequent" _ Hnode).
    fold (operand "consequent"). fold (isTA' (operand "consequent")).
    destruct (isTA' (operand "consequent")); [reflexivity |].
    rewrite (operand_TA st n nodeobj "alternate" _ Hnode).
    fold (operand "alternate"). fold (isTA' (operand "alternate")).
    destruct (isTA' (operand "alternate")); reflexivity. }
  split; [| split; [| split]].
  - intros c childobj Hop Hc H1.
    apply (hands_stand_in _ _ _ st n nodeobj c childobj Hnode (Hkey _ _ Hop) Hc Hrule).
    rewrite Hrun, H1. reflexivity.
  - intros c childobj Hop Hc H1 H2.
    apply (hands_stand_in _ _ _ st n nodeobj c childobj Hnode (Hkey _ _ Hop) Hc Hrule).
    rewrite Hrun, H1, H2. reflexivity.
  - intros c childobj Hop Hc H1 H2 H3.
    apply (hands_stand_in _ _ _ st n nodeobj c childobj Hnode (Hkey _ _ Hop) Hc Hrule).
    rewrite Hrun, H1, H2, H3. reflexivity.
  - intros H1 H2 H3. rewrite Hrun, H1, H2, H3. apply callRule_ok. exact Hrule.
Qed.

(** X25. The class handlers look at the kind of the super class, not at
    [isTypeAssertion]: a super class of kind [TSAsExpression] is replaced
    by a stand-in in a copy; with any other kind, an angle-bracket
    assertion included, or with no super class, the node itself is handed
    over. *)
Theorem class_superClass_kind st n nodeobj key (Hnode : heap st !! n = Some nodeobj)
        (Hrule : hasRule rules key = true) :
  let superClass := default VUndefined (nodeobj !! "superClass") in
  (forall c childobj,
      superClass = VRef c -> heap st !! c = Some childobj ->
      childobj !! "type" = Some (VStr "TSAsExpression") ->
      handsStandIn (classOverride rules key) key "superClass" st n c)
  /\ (forall c childobj,
         superClass = VRef c -> heap st !! c = Some childobj ->
         childobj !! "type" <> Some (VStr "TSAsExpression") ->
         classOverride rules key (VRef n) st = Some (tt, forwarded st key n))
  /\ (superClass = VNull \/ superClass = VUndefined ->
      classOverride rules key (VRef n) st = Some (tt, forwarded st key n)).
Proof.
  intros superClass.
  assert (Hstart : forall k : value -> M unit,
             bind (getProp (VRef n) "superClass")
                  (fun s => bind (getPropOpt s "type") k) st
             = bind (getPropOpt superClass "type") k st).
  { intros k. rewrite (bind_Some _ _ _ _ _ (getProp_ref st n nodeobj "superClass" Hnode)).
    reflexivity. }
  unfold classOverride. rewrite Hstart. clear Hstart. split; [| split].
  - intros c childobj Hs Hc Htype.
    assert (Hkey : nodeobj !! "superClass" = Some (VRef c)).
    { unfold superClass in Hs. destruct (nodeobj !! "superClass"); simpl in Hs; congruence. }
    apply (hands_stand_in _ _ _ st n nodeobj c childobj Hnode Hkey Hc Hrule).
    unfold classOverride.
    rewrite (bind_Some _ _ _ _ _ (getProp_ref st n nodeobj "superClass" Hnode)), Hkey.
    change (default VUndefined (Some (VRef c))) with (VRef c).
    unfold getPropOpt.
    rewrite (bind_Some _ _ _ _ _ (getProp_ref st c childobj "type" Hc)), Htype.
    reflexivity.
  - intros c childobj Hs Hc Htype. rewrite Hs. unfold getPropOpt.
    rewrite (bind_Some _ _ _ _ _ (getProp_ref st c childobj "type" Hc)).
    assert (Hno : isString (default VUndefined (childobj !! "type")) "TSAsExpression" = false).
    { destruct (childobj !! "type") as [[| | | | t | |] |]; simpl; try reflexivity.
      destruct (String.eqb_spec t "TSAsExpression") as [-> | ]; [congruence | reflexivity]. }
    rewrite Hno. apply callRule_ok. exact Hrule.
  - intros [-> | ->]; simpl; unfold bind, ret; simpl; apply callRule_ok; exact Hrule.
Qed.

(** X26. A call whose callee is no type assertion and whose number of
    arguments is not one is handed to the base rule as it is, and no
    token is read. *)
Theorem callExp_argument_count st n nodeobj arguments
        (Hnode : heap st !! n = Some nodeobj)
        (Hcallee : isTypeAssertion (heap st) (default VUndefined (nodeobj !! "callee")) = false)
        (Harguments : nodeobj !! "arguments" = Some (VArr arguments))
        (Hcount : List.length arguments <> 1%nat)
        (Hrule : hasRule rules "CallExpression" = true) :
  callExp' (VRef n) st = Some (tt, forwarded st "CallExpression" n).
Proof.
  unfold callExp.
  rewrite (bind_Some _ _ _ _ _ (getProp_ref st n nodeobj "callee" Hnode)).
  rewrite (bind_Some _ _ _ _ _ (isTA_eq isTypeAssertion _ st)), Hcallee.
  rewrite (bind_Some _ _ _ _ _ (getProp_ref st n nodeobj "arguments" Hnode)), Harguments.
  change (default VUndefined (Some (VArr arguments))) with (VArr arguments).
  assert (Hlen : getProp (VArr arguments) "length" st
                 = Some (VNum (Z.of_nat (List.length arguments)), st)) by reflexivity.
  rewrite (bind_Some _ _ _ _ _ Hlen).
  assert (Hskip : forall m : M bool,
             match VNum (Z.of_nat (List.length arguments)) with
             | VNum 1 => m
             | _ => ret false
             end = ret false).
  { intros m. destruct arguments as [| a [| b rest]]; [reflexivity | contradiction |].
    change (Z.of_nat (List.length (a :: b :: rest)))
      with (Z.pos (Pos.succ (Pos.of_succ_nat (List.length rest)))).
    destruct (Pos.of_succ_nat (List.length rest)); reflexivity. }
  rewrite Hskip. unfold bind, ret. apply callRule_ok. exact Hrule.
Qed.

(** X27. Of the clauses [init], [test] and [update] of a [for]
    statement, the first that is a type assertion is the one set to
    [null] in the copy handed to the base rule, and no other. *)
Theorem ForStatement_priority st n nodeobj (Hnode : heap st !! n = Some nodeobj)
        (Hrule : hasRule rules "ForStatement" = true) :
  let clause := isTypeAssertionClause isTypeAssertion (heap st) nodeobj in
  let handler := ForStatement rules isTypeAssertion in
  (clause "init" = true -> handsWithout handler "ForStatement" "init" st n)
  /\ (clause "init" = false -> clause "test" = true ->
      handsWithout handler "ForStatement" "test" st n)
  /\ (clause "init" = false -> clause "test" = false -> clause "update" = true ->
      handsWithout handler "ForStatement" "update" st n).
Proof.
  intros clause handler.
  assert (Hhands : forall key,
             handler (VRef n) st
             = bind (withNullAt (VRef n) key) (fun arg => callRule rules "ForStatement" arg) st ->
             handsWithout handler "ForStatement" key st n).
  { intros key E.
    destruct (call_with_null_copy rules "ForStatement" st n key nodeobj Hrule Hnode)
      as (copy & st' & Hrun & Hinv & Hadds & Hun).
    exists nodeobj, copy, st'. rewrite E.
    split; [exact Hnode | split; [exact Hrun | split; [exact Hinv | split; assumption]]]. }
  unfold handler in *.
  rewrite (ForStatement_run rules isTypeAssertion st n nodeobj Hnode) in Hhands.
  fold clause in Hhands.
  split; [| split].
  - intros H1. apply Hhands. rewrite H1. reflexivity.
  - intros H1 H2. apply Hhands. rewrite H1, H2. reflexivity.
  - intros H1 H2 H3. apply Hhands. rewrite H1, H2, H3. reflexivity.
Qed.

(** X28. In the listener returned by [create] an override wins over the
    base rule's callback of the same key; for every other key the
    listener has the base rule's callback, unchanged, exactly when the
    base rule has it, and a node kind without entry is not visited.
    Binary and logical expressions share one handler, as do call and
    [new] expressions, and unary and update expressions. *)
Theorem create_listener :
  (forall key h, overrides rules !! key = Some h -> create rules !! key = Some h)
  /\ (forall key, overrides rules !! key = None ->
                  create rules !! key = if hasRule rules key then Some (Base key) else None)
  /\ (forall key node,
         overrides rules !! key = None -> hasRule rules key = true ->
         visit rules sourceCode isTypeAssertion isOpeningParenToken key node
         = callRule rules key node)
  /\ (forall key node,
         create rules !! key = None ->
         visit rules sourceCode isTypeAssertion isOpeningParenToken key node = ret tt)
  /\ create rules !! "BinaryExpression" = Some H_binaryExp
  /\ create rules !! "LogicalExpression" = Some H_binaryExp
  /\ create rules !! "CallExpression" = Some H_callExp
  /\ create rules !! "NewExpression" = Some H_callExp
  /\ create rules !! "UnaryExpression" = Some H_unaryUpdateExpression
  /\ create rules !! "UpdateExpression" = Some H_unaryUpdateExpression.
Proof.
  assert (Hfixed : forall key h,
             (if hasRule rules "ForInStatement" && hasRule rules "ForOfStatement"
              then overrides rules_per_kind !! key
              else overrides rules_combined !! key) = Some h ->
             overrides rules !! key = Some h).
  { intros key h. unfold overrides at 3.
    replace (hasRule rules_per_kind "ForInStatement"
             && hasRule rules_per_kind "ForOfStatement") with true by (vm_compute; reflexivity).
    unfold overrides at 2.
    replace (hasRule rules_combined "ForInStatement"
             && hasRule rules_combined "ForOfStatement") with false by (vm_compute; reflexivity).
    unfold overrides. destruct (_ && _); intros H; exact H. }
  assert (Hover : forall key h,
             overrides rules_per_kind !! key = Some h ->
             overrides rules_combined !! key = Some h ->
             create rules !! key = Some h).
  { intros key h H1 H2. rewrite create_lookup.
    rewrite (Hfixed key h); [reflexivity |]. destruct (_ && _); assumption. }
  split; [| split; [| split; [| split]]].
  - intros key h H. rewrite create_lookup, H. reflexivity.
  - intros key H. rewrite create_lookup, H. reflexivity.
  - intros key node H Hrule. unfold visit. rewrite create_lookup, H, Hrule. reflexivity.
  - intros key node H. unfold visit. rewrite H. reflexivity.
  - repeat split; apply Hover; vm_compute; reflexivity.
Qed.
End Behaviour.

(** ** no-extra-parens on [(x as T).y], [y ? (x as T) : y] and other nodes *)

Section HandlerExamples.
Import NoExtraParens.

Lemma runHandler_delegates_witness :
  exists st',
    runHandler rules_per_kind no_tokens isTypeAssertion_std isOpeningParenToken_std
               H_MemberExpression (VRef 1%positive) (initial heap_member)
    = Some (tt, st')
    /\ untouched (initial heap_member) st'.
Proof.
  eexists. split; [vm_compute; reflexivity |].
  refine (proj1 (runHandler_delegates rules_per_kind no_tokens isTypeAssertion_std
                   isOpeningParenToken_std H_MemberExpression (VRef 1%positive)
                   (initial heap_member) tt _ _)).
  vm_compute; reflexivity.
Defined.

Lemma runHandler_runs_witness :
  exists a st',
    runHandler rules_per_kind no_tokens isTypeAssertion_std isOpeningParenToken_std
               H_SwitchCase (VRef 1%positive) (initial heap_default_case)
    = Some (a, st').
Proof.
  refine (runHandler_runs rules_per_kind no_tokens isTypeAssertion_std
            isOpeningParenToken_std H_SwitchCase 1%positive _ _
            (initial heap_default_case)).
  - vm_compute; reflexivity.
  - discriminate.
Defined.


Lemma single_operand_stand_in_witness :
  handsStandIn (MemberExpression rules_per_kind isTypeAssertion_std) "MemberExpression"
               "object" (initial heap_member) 1%positive 2%positive.
Proof.
  refine (proj1 (proj2 (single_operand_stand_in rules_per_kind no_tokens isTypeAssertion_std
                          isOpeningParenToken_std (initial heap_member) 1%positive
                          member_node 2%positive as_node "object" _ _ _ _))
                eq_refl _);
    vm_compute; reflexivity.
Defined.

Lemma conditional_first_assertion_witness :
  handsStandIn (ConditionalExpression rules_per_kind isTypeAssertion_std)
               "ConditionalExpression" "consequent" (initial heap_conditional)
               1%positive 2%positive.
Proof.
  refine (proj1 (proj2 (conditional_first_assertion rules_per_kind isTypeAssertion_std
                          (initial heap_conditional) 1%positive conditional_node _ _))
                2%positive as_node _ _ _ _);
    vm_compute; reflexivity.
Defined.

(** An angle-bracket assertion as super class is handed over as it is. *)
Lemma class_superClass_kind_witness :
  isTypeAssertion_std heap_class (VRef 2%positive) = true
  /\ classOverride rules_per_kind "ClassDeclaration" (VRef 1%positive) (initial heap_class)
     = Some (tt, forwarded (initial heap_class) "ClassDeclaration" 1%positive).
Proof.
  split; [vm_compute; reflexivity |].
  refine (proj1 (proj2 (class_superClass_kind rules_per_kind (initial heap_class) 1%positive
                          class_node "ClassDeclaration" _ _))
                2%positive angle_node _ _ _).
  - vm_compute; reflexivity.
  - vm_compute; reflexivity.
  - vm_compute; reflexivity.
  - vm_compute; reflexivity.
  - vm_compute. discriminate.
Defined.

Lemma callExp_argument_count_witness :
  callExp rules_per_kind no_tokens isTypeAssertion_std isOpeningParenToken_std
          (VRef 1%positive) (initial heap_call0)
  = Some (tt, forwarded (initial heap_call0) "CallExpression" 1%positive).
Proof.
  refine (callExp_argument_count rules_per_kind no_tokens isTypeAssertion_std
            isOpeningParenToken_std (initial heap_call0) 1%positive call0_node [] _ _ _ _ _).
  - vm_compute; reflexivity.
  - vm_compute; reflexivity.
  - vm_compute; reflexivity.
  - simpl. discriminate.
  - vm_compute; reflexivity.
Defined.

(** [for ((a as T); (b as T); c) {}]: the init clause alone is set to [null]. *)
Lemma ForStatement_priority_witness :
  handsWithout (ForStatement rules_per_kind isTypeAssertion_std) "ForStatement" "init"
               (initial heap_for) 1%positive.
Proof.
  refine (proj1 (ForStatement_priority rules_per_kind isTypeAssertion_std (initial heap_for)
                   1%positive for_node _ _) _);
    vm_compute; reflexivity.
Defined.

End HandlerExamples.

